(** * custom-attributes: lifecycle hooks for plain HTML attributes

    A shallow embedding of [registerAttribute] and of the mutation handler
    it installs (src/main.js and the two later revisions of the same file),
    together with the properties the specification states about them.

    The DOM is represented by the snapshot the code can read while one
    synchronous piece of it runs: a node carries its identity, its kind,
    its attributes and its children.  The hooks of a lifecycle class are
    user code; an invocation is recorded in a call log and has no other
    effect. *)

From stdpp Require Import gmap strings list.

(** ** DOM snapshot *)

Inductive node_kind :=
| HTMLElementNode   (* instanceof HTMLElement, hence instanceof Element *)
| ForeignElementNode (* an Element that is no HTMLElement, e.g. SVG *)
| TextNode
| DocumentNode.

#[warnings="-register-all"] Inductive node :=
| Node (ident : nat) (kind : node_kind)
       (attributes : gmap string string) (childNodes : list node).

Definition ident (n : node) : nat := let 'Node i _ _ _ := n in i.
Definition kind (n : node) : node_kind := let 'Node _ k _ _ := n in k.
Definition attributes (n : node) : gmap string string :=
  let 'Node _ _ a _ := n in a.
Definition childNodes (n : node) : list node := let 'Node _ _ _ c := n in c.

(** [n instanceof Element] *)
Definition instanceofElement (n : node) : bool :=
  match kind n with
  | HTMLElementNode | ForeignElementNode => true
  | TextNode | DocumentNode => false
  end.

(** [n instanceof HTMLElement] *)
Definition instanceofHTMLElement (n : node) : bool :=
  match kind n with
  | HTMLElementNode => true
  | _ => false
  end.

(** [n.getAttribute(name)]: [None] is JavaScript's [null].  Attribute
    names are looked up as they are written, here and in [hasAttribute]
    and [querySelectorAll]: the names meant are lower-case, which the DOM
    does not fold. *)
Definition getAttribute (n : node) (name : string) : option string :=
  attributes n !! name.

(** [n.hasAttribute(name)] *)
Definition hasAttribute (n : node) (name : string) : bool :=
  bool_decide (is_Some (attributes n !! name)).

(** [n.setAttribute(name, value)] and [n.removeAttribute(name)] *)
Definition setAttribute (n : node) (name value : string) : node :=
  Node (ident n) (kind n) (<[name := value]> (attributes n)) (childNodes n).

Definition removeAttribute (n : node) (name : string) : node :=
  Node (ident n) (kind n) (delete name (attributes n)) (childNodes n).

(** All descendants of a node, in document order (the node itself is not
    one of them). *)
Fixpoint descendants (n : node) : list node :=
  match n with
  | Node _ _ _ cs => flat_map (fun c => c :: descendants c) cs
  end.

(** [n.querySelectorAll(`[${name}]`)]: the descendant elements carrying
    the attribute, in document order.  The name is meant to be a CSS
    identifier, as the names of custom attributes are, so that the
    selector parses and selects by presence of the attribute. *)
Definition querySelectorAll (n : node) (name : string) : list node :=
  filter (fun d => instanceofElement d && hasAttribute d name)
         (descendants n).

(** Names for which the selector [`[${name}]`] parses and the DOM reads
    the name as it is written: a lower-case letter followed by lower-case
    letters, digits and hyphens. *)
Definition plain_char (first : bool) (c : Ascii.ascii) : bool :=
  let n := Ascii.nat_of_ascii c in
  (97 <=? n) && (n <=? 122)
  || negb first && ((48 <=? n) && (n <=? 57) || (n =? 45)).

Fixpoint plain_rest (s : string) : bool :=
  match s with
  | EmptyString => true
  | String c s' => plain_char false c && plain_rest s'
  end.

Definition plain_name (name : string) : bool :=
  match name with
  | EmptyString => false
  | String c s' => plain_char true c && plain_rest s'
  end.

(** Documents and elements have a [querySelectorAll] method, text nodes
    do not. *)
Definition has_querySelectorAll (n : node) : bool :=
  match kind n with
  | TextNode => false
  | _ => true
  end.

(** ** JavaScript values handed to [registerAttribute]

    The values told apart are the ones the checks and [new] tell apart
    for the arguments a caller is documented to pass: primitives, nodes,
    classes declared as [CustomAttribute] or extending it, objects made
    by [new] of such a class, and other objects.  A function object that
    has been given [CustomAttribute.prototype] as its own prototype is
    not among them. *)

Inductive jsval :=
| JUndefined
| JNull
| JBool (b : bool)
| JNum (z : Z)
| JStr (s : string)
| JNode (n : node)
| JClass (k : nat)      (* CustomAttribute or a class extending it *)
| JInstance (k : nat)   (* an object created by [new] of such a class *)
| JObject.              (* any other object *)

Definition typeof (v : jsval) : string :=
  match v with
  | JUndefined => "undefined"
  | JNull => "object"
  | JBool _ => "boolean"
  | JNum _ => "number"
  | JStr _ => "string"
  | JNode _ => "object"
  | JClass _ => "function"
  | JInstance _ => "object"
  | JObject => "object"
  end.

(** [v instanceof CustomAttribute]: the prototype of the class is on the
    prototype chain of its instances, not on that of the class itself. *)
Definition instanceofCustomAttribute (v : jsval) : bool :=
  match v with
  | JInstance _ => true
  | _ => false
  end.

(** ** Lifecycle objects and the call log *)

(** An instance of a lifecycle class: the private fields [#host] and
    [#name] set by the constructor, and the class it was made from. *)
Record CustomAttribute := {
  class_of : nat;
  host : nat;
  name : string;
}.

Inductive method :=
| connectedCallback (value : option string)
| changedCallback (newValue oldValue : option string)
| disconnectedCallback.

Definition call : Type := CustomAttribute * method.

Inductive error :=
| TypeError        (* raised by the language: not a constructor, ... *)
| Error (tag : string). (* [throw new Error(...)] of the program *)

Inductive outcome (A : Type) :=
| Normal (a : A)
| Thrown (e : error).
Arguments Normal {A} a.
Arguments Thrown {A} e.

(** The state one registration's closure works on: its [observedElements]
    WeakMap, keyed by element identity, and the hook calls made so far. *)
Record closure := {
  observedElements : gmap nat CustomAttribute;
  calls : list call;
}.

(** State and exception monad over [closure]; the state survives a
    throw, as it does in JavaScript. *)
Definition M (A : Type) : Type := closure -> outcome A * closure.

Definition ret {A} (a : A) : M A := fun st => (Normal a, st).

Definition bind {A B} (m : M A) (f : A -> M B) : M B :=
  fun st =>
    match m st with
    | (Normal a, st') => f a st'
    | (Thrown e, st') => (Thrown e, st')
    end.

Definition throw {A} (e : error) : M A := fun st => (Thrown e, st).

Declare Scope js_scope.
Delimit Scope js_scope with js.
Notation "'let*' x := m 'in' k" := (bind m (fun x => k))
  (at level 10, x name, m at level 100, k at level 200) : js_scope.
Notation "m ';;' k" := (bind m (fun _ => k))
  (at level 100, k at level 200, right associativity) : js_scope.
Local Open Scope js_scope.

(** [observedElements.has], [.get], [.set], [.delete] *)
Definition observed_has (n : node) : M bool :=
  fun st => (Normal (bool_decide (is_Some (observedElements st !! ident n))), st).

Definition observed_get (n : node) : M (option CustomAttribute) :=
  fun st => (Normal (observedElements st !! ident n), st).

Definition observed_set (n : node) (cls : CustomAttribute) : M unit :=
  fun st => (Normal tt,
             {| observedElements := <[ident n := cls]> (observedElements st);
                calls := calls st |}).

Definition observed_delete (n : node) : M unit :=
  fun st => (Normal tt,
             {| observedElements := delete (ident n) (observedElements st);
                calls := calls st |}).

(** [cls.m(...)]: the hook runs and is logged. *)
Definition invoke (cls : CustomAttribute) (m : method) : M unit :=
  fun st => (Normal tt,
             {| observedElements := observedElements st;
                calls := calls st ++ [(cls, m)] |}).

(** [cls.m(...)] where [cls] came out of [observedElements.get]: calling
    a method on [undefined] is a TypeError. *)
Definition invoke_on (o : option CustomAttribute) (m : method) : M unit :=
  match o with
  | Some cls => invoke cls m
  | None => throw TypeError
  end.

(** [o?.m(...)] *)
Definition invoke_opt (o : option CustomAttribute) (m : method) : M unit :=
  match o with
  | Some cls => invoke cls m
  | None => ret tt
  end.

(** [new customAttribute(name, element)] *)
Definition construct (customAttribute : jsval) (name : string) (element : node)
  : M CustomAttribute :=
  match customAttribute with
  | JClass k => ret {| class_of := k; host := ident element; name := name |}
  | _ => throw TypeError
  end.

(** [for (let x of l) body] and [l.forEach(body)] *)
Fixpoint forEach {A} (l : list A) (body : A -> M unit) : M unit :=
  match l with
  | [] => ret tt
  | x :: l' => body x ;; forEach l' body
  end.

(** [root.querySelectorAll(`[${name}]`)] on a node of any kind: calling
    a method the node does not have is a TypeError. *)
Definition call_querySelectorAll (root : node) (name : string)
  : M (list node) :=
  if has_querySelectorAll root then ret (querySelectorAll root name)
  else throw TypeError.

(** ** Mutation records, as the host delivers them *)

Inductive record_type := attributes_t | childList_t | characterData_t.

Record MutationRecord := {
  type : record_type;
  target : node;
  addedNodes : list node;
  removedNodes : list node;
  attributeName : option string;
  oldValue : option string;
}.

(** ** The functions nested in [registerAttribute]

    [newAttribute] and [mutationHandler] close over the parameters [name]
    and [customAttribute] of the call that created them. *)

Section Closure.
Variable name : string.
Variable customAttribute : jsval.

(** [newAttribute] is the same in all three revisions. *)
Definition newAttribute (element : node) : M unit :=
  let* cls := construct customAttribute name element in
  invoke cls (connectedCallback (getAttribute element name)) ;;
  observed_set element cls.

(** The body of the [record.type === "attributes"] branch, the same in
    all three revisions. *)
Definition attributes_branch (record : MutationRecord) : M unit :=
  let newValue := getAttribute (target record) name in
  let oldValue := oldValue record in
  match oldValue with
  | None =>
      (* New attribute *)
      newAttribute (target record)
  | Some old =>
      let* tracked := observed_has (target record) in
      if bool_decide (newValue = None) && tracked then
        (* Deleted *)
        let* cls := observed_get (target record) in
        invoke_on cls disconnectedCallback ;;
        observed_delete (target record)
      else if bool_decide (newValue <> Some old) && tracked then
        (* Change *)
        let* cls := observed_get (target record) in
        invoke_on cls (changedCallback newValue (Some old))
      else ret tt
  end.

(** [if (observedElements.has(node)) observedElements.get(node)?.disconnectedCallback()] *)
Definition disconnect_if_observed (n : node) : M unit :=
  let* tracked := observed_has n in
  if tracked then
    let* cls := observed_get n in
    invoke_opt cls disconnectedCallback
  else ret tt.

(** The same, followed by [observedElements.delete(node)]. *)
Definition disconnect_and_delete_if_observed (n : node) : M unit :=
  let* tracked := observed_has n in
  if tracked then
    let* cls := observed_get n in
    invoke_opt cls disconnectedCallback ;;
    observed_delete n
  else ret tt.

End Closure.

#[global] Instance record_type_eq_dec : EqDecision record_type.
Proof. solve_decision. Defined.

(** ** The host side of a registration *)

(** The options object handed to [observer.observe]. *)
Record ObserverInit := {
  opt_attributes : bool;
  opt_subtree : bool;
  opt_attributeOldValue : bool;
  opt_characterData : bool;
  opt_characterDataOldValue : bool;
  opt_childList : bool;
  opt_attributeFilter : option (list string);
}.

Definition observerConfig : ObserverInit :=
  {| opt_attributes := true;
     opt_subtree := true;
     opt_attributeOldValue := true;
     opt_characterData := false;
     opt_characterDataOldValue := false;
     opt_childList := true;
     opt_attributeFilter := None |}.

(** [{ ...observerConfig, attributeFilter, childList }] *)
Definition observe_options (attributeFilter : list string) (childList : bool)
  : ObserverInit :=
  {| opt_attributes := opt_attributes observerConfig;
     opt_subtree := opt_subtree observerConfig;
     opt_attributeOldValue := opt_attributeOldValue observerConfig;
     opt_characterData := opt_characterData observerConfig;
     opt_characterDataOldValue := opt_characterDataOldValue observerConfig;
     opt_childList := childList;
     opt_attributeFilter := Some attributeFilter |}.

(** A [MutationObserver]: the registration whose [mutationHandler] it
    was constructed with, and what it currently observes. *)
Record MutationObserver := {
  callback : nat;
  observing : option (nat * ObserverInit);
}.

(** What the code reads from an entry of [registries]:
    [existingObserver.observer] and [existingObserver.attributes]. *)
Record registry_entry := {
  entry_observer : nat;
  entry_attributes : list string;
}.

(** The environment of one call of [registerAttribute] that got past the
    duplicate check: its parameters and its [observedElements]. *)
Record registration := {
  reg_name : string;
  reg_customAttribute : jsval;
  reg_observedElements : gmap nat CustomAttribute;
}.

(** The arguments of a [console.error] of the program. *)
Record diagnostic := {
  diag_name : string;
  diag_root : nat;
}.

Record world := {
  registries : gmap nat registry_entry; (* the module-level WeakMap *)
  observers : list MutationObserver;    (* every observer constructed *)
  registrations : list registration;
  console : list diagnostic;
  hook_calls : list call;
}.

(** The module has just been loaded. *)
Definition initial_world : world :=
  {| registries := ∅; observers := []; registrations := [];
     console := []; hook_calls := [] |}.

(** [new MutationObserver(mutationHandler)], giving the new observer *)
Definition new_MutationObserver (self : nat) (w : world) : nat * world :=
  (length (observers w),
   {| registries := registries w;
      observers := observers w ++ [{| callback := self; observing := None |}];
      registrations := registrations w;
      console := console w;
      hook_calls := hook_calls w |}).

Definition set_observing (o : nat) (x : option (nat * ObserverInit))
    (w : world) : world :=
  {| registries := registries w;
     observers :=
       match observers w !! o with
       | Some ob => <[o := {| callback := callback ob; observing := x |}]>
                      (observers w)
       | None => observers w
       end;
     registrations := registrations w;
     console := console w;
     hook_calls := hook_calls w |}.

(** [observer.disconnect()] *)
Definition observer_disconnect (o : nat) (w : world) : world :=
  set_observing o None w.

(** [observer.observe(root, options)] *)
Definition observer_observe (o : nat) (root : node) (options : ObserverInit)
    (w : world) : world :=
  set_observing o (Some (ident root, options)) w.

(** [console.error(...)] *)
Definition console_error (d : diagnostic) (w : world) : world :=
  {| registries := registries w;
     observers := observers w;
     registrations := registrations w;
     console := console w ++ [d];
     hook_calls := hook_calls w |}.

(** Lines 50-69 of src/main.js (132-151 and 303-322 of the later
    revisions): [None] is the early [return] after the diagnostic,
    otherwise the observer to use and the attribute filter.  Nothing in
    the program ever writes to [registries]. *)
Definition acquire_observer (name : string) (root : node) (w : world)
  : option (nat * list string) * world :=
  let self := length (registrations w) in
  let existingObserver := registries w !! ident root in
  let attributeFilter := [name] in
  match existingObserver with
  | Some existingObserver =>
      (* Attribute observer already defined *)
      if bool_decide (name ∈ entry_attributes existingObserver) then
        (None, console_error {| diag_name := name; diag_root := ident root |} w)
      else
        let observer := entry_observer existingObserver in
        let attributeFilter :=
          attributeFilter ++ entry_attributes existingObserver in
        (* Reset observer to start observing with new attribute filter *)
        (Some (observer, attributeFilter), observer_disconnect observer w)
  | None =>
      let '(observer, w') := new_MutationObserver self w in
      (Some (observer, attributeFilter), w')
  end.

(** Run the initial pass of a registration in its fresh closure and file
    the registration. *)
Definition run_initial_pass (name : string) (customAttribute : jsval)
    (pass : M unit) (w : world) : outcome unit * world :=
  let '(r, st) := pass {| observedElements := ∅; calls := hook_calls w |} in
  (r, {| registries := registries w;
         observers := observers w;
         registrations := registrations w ++
           [{| reg_name := name; reg_customAttribute := customAttribute;
               reg_observedElements := observedElements st |}];
         console := console w;
         hook_calls := calls st |}).

(** ** src/main.js *)

Module MainJs.

Fixpoint mutationHandler (name : string) (customAttribute : jsval)
    (mutationList : list MutationRecord) : M unit :=
  match mutationList with
  | [] => ret tt
  | record :: rest =>
      (* Element (or parent of element) got removed *)
      if bool_decide (type record = childList_t)
         && (0 <? length (removedNodes record)) then
        forEach (removedNodes record) (fun removedNode =>
          if instanceofElement removedNode then
            if hasAttribute removedNode name then
              disconnect_if_observed removedNode
            else
              forEach (querySelectorAll removedNode name)
                      disconnect_if_observed
          else ret tt) ;;
        ret tt (* return *)
      (* Element with attribute got added *)
      else if bool_decide (type record = childList_t)
              && (0 <? length (addedNodes record)) then
        forEach (addedNodes record) (fun addedNode =>
          if instanceofElement addedNode then
            if hasAttribute addedNode name then
              newAttribute name customAttribute addedNode
            else
              forEach (querySelectorAll addedNode name)
                      (newAttribute name customAttribute)
          else ret tt) ;;
        ret tt (* return *)
      else
        (if bool_decide (type record = attributes_t)
            && instanceofElement (target record) then
           attributes_branch name customAttribute record
         else ret tt) ;;
        mutationHandler name customAttribute rest
  end.

(** Lines 139-148: the last branch only holds a comment. *)
Definition initial_pass (name : string) (customAttribute : jsval)
    (root : node) (childList : bool) : M unit :=
  if childList then
    let* elements := call_querySelectorAll root name in
    forEach elements (newAttribute name customAttribute)
  else if instanceofElement root then
    newAttribute name customAttribute root
  else
    (* Throw error or what? *)
    ret tt.

Definition registerAttribute (name : string) (customAttribute : jsval)
    (root : node) (childList : bool) (w : world) : outcome unit * world :=
  match acquire_observer name root w with
  | (None, w') => (Normal tt, w') (* return *)
  | (Some (observer, attributeFilter), w') =>
      (* Start listening to changes *)
      let w'' := observer_observe observer root
                   (observe_options attributeFilter childList) w' in
      (* Initial pass *)
      run_initial_pass name customAttribute
        (initial_pass name customAttribute root childList) w''
  end.

End MainJs.

(** ** The two later revisions, src/unnamed/part_001

    Lines 1-245 hold a revision that checks its parameters; lines 247-416
    hold one without the checks.  Their [mutationHandler] and their
    initial pass are the same text. *)

Module Part001.

Fixpoint mutationHandler (name : string) (customAttribute : jsval)
    (mutationList : list MutationRecord) : M unit :=
  match mutationList with
  | [] => ret tt
  | record :: rest =>
      (* Element (or parent of element) got removed *)
      if bool_decide (type record = childList_t)
         && (0 <? length (removedNodes record)) then
        forEach (removedNodes record) (fun removedNode =>
          if negb (instanceofElement removedNode) then
            ret tt (* continue *)
          else
            (let* tracked := observed_has removedNode in
             if hasAttribute removedNode name && tracked then
               let* cls := observed_get removedNode in
               invoke_opt cls disconnectedCallback ;;
               observed_delete removedNode
             else ret tt) ;;
            (* Call disconnected callback on all removed child nodes *)
            forEach (querySelectorAll removedNode name)
                    disconnect_and_delete_if_observed) ;;
        ret tt (* return *)
      (* Element with attribute got added *)
      else if bool_decide (type record = childList_t)
              && (0 <? length (addedNodes record)) then
        forEach (addedNodes record) (fun addedNode =>
          if negb (instanceofElement addedNode) then
            ret tt (* continue *)
          else
            (if hasAttribute addedNode name then
               newAttribute name customAttribute addedNode
             else ret tt) ;;
            forEach (querySelectorAll addedNode name)
                    (newAttribute name customAttribute)) ;;
        ret tt (* return *)
      else
        (if bool_decide (type record = attributes_t)
            && instanceofElement (target record) then
           attributes_branch name customAttribute record
         else ret tt) ;;
        mutationHandler name customAttribute rest
  end.

(** Lines 233-244 and 404-415. *)
Definition initial_pass (name : string) (customAttribute : jsval)
    (root : node) (childList : bool) : M unit :=
  if childList then
    let* elements := call_querySelectorAll root name in
    forEach elements (newAttribute name customAttribute)
  else if instanceofElement root then
    newAttribute name customAttribute root
  else
    throw (Error "Root must be a valid element node.").

(** Lines 297-416: the revision without parameter checks. *)
Definition registerAttribute (name : string) (customAttribute : jsval)
    (root : node) (childList : bool) (w : world) : outcome unit * world :=
  match acquire_observer name root w with
  | (None, w') => (Normal tt, w') (* return *)
  | (Some (observer, attributeFilter), w') =>
      (* Start listening to changes *)
      let w'' := observer_observe observer root
                   (observe_options attributeFilter childList) w' in
      (* Initial pass *)
      run_initial_pass name customAttribute
        (initial_pass name customAttribute root childList) w''
  end.

(** Lines 102-245: the revision that checks its parameters, which are
    arbitrary JavaScript values here.  [document] is the global the
    default of [root] refers to. *)
Module Checked.

Definition is_HTMLElement (v : jsval) : bool :=
  match v with
  | JNode n => instanceofHTMLElement n
  | _ => false
  end.

Definition registerAttribute (document : node)
    (name customAttribute root childList : jsval) (w : world)
  : outcome unit * world :=
  let root := match root with JUndefined => JNode document | _ => root end in
  let childList :=
    match childList with JUndefined => JBool true | _ => childList end in
  if negb (String.eqb (typeof name) "string") then
    (Thrown (Error "expected parameter name to be of type string"), w)
  else if negb (instanceofCustomAttribute customAttribute) then
    (Thrown (Error "expected parameter customAttribute to be an instance of CustomAttribute"), w)
  else if negb (is_HTMLElement root) then
    (Thrown (Error "expected parameter root to be an instance of HTMLElement"), w)
  else if negb (String.eqb (typeof childList) "boolean") then
    (Thrown (Error "expected parameter childList to be of type boolean"), w)
  else
    match name, root, childList with
    | JStr name, JNode root, JBool childList =>
        Part001.registerAttribute name customAttribute root childList w
    | _, _, _ => (Thrown TypeError, w) (* excluded by the checks *)
    end.

End Checked.

End Part001.

(** ** Delivery of a batch by the host

    The host calls the callback an observer was constructed with, on the
    records queued for it.  [handler] is the [mutationHandler] of the
    revision at hand. *)

Definition handler_type : Type :=
  string -> jsval -> list MutationRecord -> M unit.

Definition deliver (handler : handler_type) (observer : nat)
    (mutationList : list MutationRecord) (w : world) : outcome unit * world :=
  match observers w !! observer with
  | None => (Normal tt, w)
  | Some ob =>
      match registrations w !! callback ob with
      | None => (Normal tt, w)
      | Some reg =>
          let '(r, st) :=
            handler (reg_name reg) (reg_customAttribute reg) mutationList
              {| observedElements := reg_observedElements reg;
                 calls := hook_calls w |} in
          (r, {| registries := registries w;
                 observers := observers w;
                 registrations :=
                   <[callback ob :=
                       {| reg_name := reg_name reg;
                          reg_customAttribute := reg_customAttribute reg;
                          reg_observedElements := observedElements st |}]>
                     (registrations w);
                 console := console w;
                 hook_calls := calls st |})
      end
  end.

(** ** Observations on the call log *)

(** The hooks invoked on instances whose host is element [i], in order. *)
Definition calls_on (i : nat) (cs : list call) : list method :=
  (filter (fun c => host c.1 = i) cs).*2.

Definition is_connected (m : method) : bool :=
  match m with connectedCallback _ => true | _ => false end.

Definition is_disconnected (m : method) : bool :=
  match m with disconnectedCallback => true | _ => false end.

Definition is_changed (m : method) : bool :=
  match m with changedCallback _ _ => true | _ => false end.

Definition connected_count (i : nat) (cs : list call) : nat :=
  length (filter is_connected (calls_on i cs)).

Definition disconnected_count (i : nat) (cs : list call) : nat :=
  length (filter is_disconnected (calls_on i cs)).

(** The calls a computation added to the log. *)
Definition new_calls (before after : list call) : list call :=
  drop (length before) after.

(** The instance [newAttribute] constructs for an element, and the call
    it makes on it. *)
Definition instance_for (k : nat) (name : string) (element : node)
  : CustomAttribute :=
  {| class_of := k; host := ident element; name := name |}.

Definition connect_call (k : nat) (name : string) (element : node) : call :=
  (instance_for k name element,
   connectedCallback (getAttribute element name)).

(** Every instance in the store sits under the identity of its host;
    [newAttribute] is the only writer and keeps it so. *)
Definition store_wf (obs : gmap nat CustomAttribute) : Prop :=
  ∀ i cls, obs !! i = Some cls → host cls = i.

(** [registries] already lists [name] under [root]. *)
Definition already_registered (name : string) (root : node) (w : world)
  : Prop :=
  ∃ entry, registries w !! ident root = Some entry
           ∧ name ∈ entry_attributes entry.

(** The observers that currently observe the root with identity [r]. *)
Definition observes (r : nat) (ob : MutationObserver) : bool :=
  match observing ob with
  | Some (r', _) => bool_decide (r' = r)
  | None => false
  end.

Definition observers_of (r : nat) (w : world) : list MutationObserver :=
  filter (fun ob => observes r ob) (observers w).

(** ** Batches *)

(** Handling the records one at a time, each as a batch of its own. *)
Definition replay (handler : handler_type) (name : string)
    (customAttribute : jsval) (mutationList : list MutationRecord) : M unit :=
  forEach mutationList (fun record => handler name customAttribute [record]).

Definition attribute_batch (mutationList : list MutationRecord) : Prop :=
  Forall (fun record => type record = attributes_t
                        ∧ instanceofElement (target record) = true)
         mutationList.

(** The number of records of a batch whose target is element [i]. *)
Definition records_on (i : nat) (mutationList : list MutationRecord) : nat :=
  length (filter (fun record => ident (target record) = i) mutationList).

Definition at_most_one_callback_per_element (cs : list call) : Prop :=
  ∀ i, length (calls_on i cs) ≤ 1.

(** ** Attribute mutations of one element, as the host records them

    The host queues one record per attribute mutation, holding the value
    before the mutation ([attributeOldValue]); removing an absent
    attribute queues nothing.  When the batch is delivered, the target of
    every record is the element as it is then. *)

Inductive attr_op :=
| SetAttribute (value : string)
| RemoveAttribute.

Definition apply_op (name : string) (op : attr_op) (e : node)
  : node * list (option string) :=
  match op with
  | SetAttribute value => (setAttribute e name value, [getAttribute e name])
  | RemoveAttribute =>
      if hasAttribute e name
      then (removeAttribute e name, [getAttribute e name])
      else (e, [])
  end.

Fixpoint apply_ops (name : string) (ops : list attr_op) (e : node)
  : node * list (option string) :=
  match ops with
  | [] => (e, [])
  | op :: ops' =>
      let '(e1, olds1) := apply_op name op e in
      let '(e2, olds2) := apply_ops name ops' e1 in
      (e2, olds1 ++ olds2)
  end.

Definition attribute_record (name : string) (e : node) (old : option string)
  : MutationRecord :=
  {| type := attributes_t; target := e; addedNodes := []; removedNodes := [];
     attributeName := Some name; oldValue := old |}.

(** The records delivered for a run of mutations, and the element after
    them. *)
Definition script_batch (name : string) (ops : list attr_op) (e : node)
  : node * list MutationRecord :=
  let '(e', olds) := apply_ops name ops e in
  (e', attribute_record name e' <$> olds).

(** A sequence of scripts, each followed by the delivery of its batch to
    [observer]; the host does not call back when nothing was queued. *)
Fixpoint run_batches (handler : handler_type) (name : string) (observer : nat)
    (batches : list (list attr_op)) (e : node) (w : world) : node * world :=
  match batches with
  | [] => (e, w)
  | ops :: rest =>
      let '(e', mutationList) := script_batch name ops e in
      let w' :=
        match mutationList with
        | [] => w
        | _ => (deliver handler observer mutationList w).2
        end in
      run_batches handler name observer rest e' w'
  end.

(** A batch re-adds the attribute when a record other than its first one
    has no old value. *)
Definition readds (olds : list (option string)) : bool :=
  existsb (fun old => bool_decide (old = None)) (tail olds).

(** No batch both re-adds the attribute and ends with it present. *)
Fixpoint no_readd_kept (name : string) (batches : list (list attr_op))
    (e : node) : bool :=
  match batches with
  | [] => true
  | ops :: rest =>
      let '(e', olds) := apply_ops name ops e in
      negb (readds olds && hasAttribute e' name)
      && no_readd_kept name rest e'
  end.

(** Connects minus disconnects on [e] is 1 when [e] carries the
    attribute and 0 when it does not. *)
Definition balanced (name : string) (e : node) (w : world) : Prop :=
  connected_count (ident e) (hook_calls w)
  = disconnected_count (ident e) (hook_calls w)
    + (if hasAttribute e name then 1 else 0).

(** The elements the initial pass of a registration connects. *)
Definition scan_targets (name : string) (root : node) (childList : bool)
  : list node :=
  if childList then querySelectorAll root name
  else if instanceofElement root then [root]
  else [].

(** Every call a computation adds to the log satisfies [P], whatever the
    state it starts in and however it ends. *)
Definition logs {A} (P : call → Prop) (m : M A) : Prop :=
  ∀ st, ∃ added, calls (m st).2 = calls st ++ added ∧ Forall P added.

(** The nodes a record can lead [newAttribute] to. *)
Definition connectable (name : string) (record : MutationRecord) : list node :=
  target record
  :: flat_map (fun a => a :: querySelectorAll a name) (addedNodes record).

(** ** The balance of connects and disconnects

    What one registration's closure has to satisfy about element [e] for
    the connects and disconnects on [e] to be balanced. *)
Definition balance_inv (name : string) (e : node) (st : closure) : Prop :=
  store_wf (observedElements st)
  ∧ (is_Some (observedElements st !! ident e) ↔ hasAttribute e name = true)
  ∧ connected_count (ident e) (calls st)
    = disconnected_count (ident e) (calls st)
      + (if hasAttribute e name then 1 else 0).

(** The same in the middle of a batch that ends with the attribute
    absent: an element may carry the attribute and have lost its
    instance already, but not the other way round. *)
Definition draining_inv (i : nat) (present : bool) (st : closure) : Prop :=
  store_wf (observedElements st)
  ∧ (present = false → observedElements st !! i = None)
  ∧ connected_count i (calls st)
    = disconnected_count i (calls st)
      + (match observedElements st !! i with Some _ => 1 | None => 0 end).

(** Observer 0 belongs to registration 0, which is the registration of
    [name] with class [k], and its closure is balanced on [e]. *)
Definition world_inv (name : string) (k : nat) (e : node) (w : world) : Prop :=
  ∃ ob reg,
    observers w !! 0 = Some ob ∧ callback ob = 0
    ∧ registrations w !! 0 = Some reg
    ∧ reg_name reg = name ∧ reg_customAttribute reg = JClass k
    ∧ balance_inv name e {| observedElements := reg_observedElements reg;
                            calls := hook_calls w |}.

(** A sequence of calls of [registerAttribute], each with its arguments. *)
Fixpoint register_all (args : list (string * jsval * node * bool))
    (w : world) : world :=
  match args with
  | [] => w
  | (name, customAttribute, root, childList) :: rest =>
      register_all rest
        (MainJs.registerAttribute name customAttribute root childList w).2
  end.

(** ** A sample page

    A document holding a paragraph and an element [el] that carries
    [x="1"], as on the test page of the repository; an element without
    the attribute; and the two records the host queues when [el] is moved
    inside the document. *)

Definition sample_el : node :=
  Node 1 HTMLElementNode {["x" := "1"]} [].

Definition sample_paragraph : node :=
  Node 2 HTMLElementNode ∅ [].

Definition sample_document : node :=
  Node 0 DocumentNode ∅ [sample_paragraph; sample_el].

Definition sample_body : node :=
  Node 3 HTMLElementNode ∅ [sample_paragraph; sample_el].

Definition sample_bare : node :=
  Node 4 HTMLElementNode ∅ [].

Definition removal_record (parent child : node) : MutationRecord :=
  {| type := childList_t; target := parent; addedNodes := [];
     removedNodes := [child]; attributeName := None; oldValue := None |}.

Definition addition_record (parent child : node) : MutationRecord :=
  {| type := childList_t; target := parent; addedNodes := [child];
     removedNodes := []; attributeName := None; oldValue := None |}.

(** The world after [registerAttribute("x", K)] on the sample document,
    [K] being class 7. *)
Definition sample_world : world :=
  (MainJs.registerAttribute "x" (JClass 7) sample_document true
     initial_world).2.

(** The closure of the registration on the sample page. *)
Definition sample_closure : closure :=
  {| observedElements := {[ 1 := instance_for 7 "x" sample_el ]};
     calls := [connect_call 7 "x" sample_el] |}.

(** ** Kinds of records

    The conditions of the three branches of the loop of [mutationHandler],
    in the order the code tests them. *)

Definition removes (record : MutationRecord) : bool :=
  bool_decide (type record = childList_t)
  && (0 <? length (removedNodes record)).

Definition adds (record : MutationRecord) : bool :=
  bool_decide (type record = childList_t)
  && (0 <? length (addedNodes record)).

Definition on_element_attribute (record : MutationRecord) : bool :=
  bool_decide (type record = attributes_t)
  && instanceofElement (target record).

(** A record none of the branches applies to. *)
Definition ignored (record : MutationRecord) : bool :=
  negb (removes record) && negb (adds record)
  && negb (on_element_attribute record).

(** The record without its added nodes. *)
Definition without_added (record : MutationRecord) : MutationRecord :=
  {| type := type record; target := target record; addedNodes := [];
     removedNodes := removedNodes record;
     attributeName := attributeName record; oldValue := oldValue record |}.

(** The elements of a removed or added subtree the loops over
    [removedNodes] and [addedNodes] reach, in the order they reach them:
    in src/main.js the node itself or else its matching descendants, in
    the later revisions the node itself and its matching descendants. *)
Definition reached_main (name : string) (n : node) : list node :=
  if hasAttribute n name then [n] else querySelectorAll n name.

Definition reached_part (name : string) (n : node) : list node :=
  (if hasAttribute n name then [n] else []) ++ querySelectorAll n name.

Definition targets_main (name : string) (nodes : list node) : list node :=
  flat_map (reached_main name)
           (filter (fun n => instanceofElement n) nodes).

Definition targets_part (name : string) (nodes : list node) : list node :=
  flat_map (reached_part name)
           (filter (fun n => instanceofElement n) nodes).

(** The disconnectedCallback calls a sweep over [ts] makes when the store
    is [obs] and stays so: one for each node that has an instance. *)
Definition disconnect_calls (obs : gmap nat CustomAttribute) (ts : list node)
  : list call :=
  omap (fun n => (fun cls => (cls, disconnectedCallback)) <$> obs !! ident n)
       ts.

(** ** Invariants of a closure *)

(** The [name] getter of an instance (later revisions; the field is
    private in all of them). *)
Definition instance_name (cls : CustomAttribute) : string := name cls.

(** The [value] getter of an instance: the attribute is read from the
    host as it is now. *)
Definition instance_value (cls : CustomAttribute) (host_now : node)
  : option string :=
  getAttribute host_now (instance_name cls).

(** Every stored instance sits under the identity of its host and bears
    the name of the registration. *)
Definition store_coherent (name : string) (st : closure) : Prop :=
  ∀ i cls, observedElements st !! i = Some cls
           → host cls = i ∧ instance_name cls = name.

(** No hook other than connectedCallback is called on an instance before
    connectedCallback was, and every stored instance was connected. *)
Definition connected_first (cs : list call) : Prop :=
  ∀ j cls m,
    cs !! j = Some (cls, m) → is_connected m = false →
    ∃ j' value, j' < j ∧ cs !! j' = Some (cls, connectedCallback value).

Definition lifecycle_inv (st : closure) : Prop :=
  connected_first (calls st)
  ∧ ∀ i cls, observedElements st !! i = Some cls
             → ∃ j value, calls st !! j = Some (cls, connectedCallback value).

(** A relation between the state before and after a computation that
    holds whatever the state and however the computation ends. *)
Definition steps {A} (R : closure → closure → Prop) (m : M A) : Prop :=
  ∀ st, R st (m st).2.

(** From [st] to [st'] no instance was added or replaced and no
    connectedCallback call was made. *)
Definition nothing_connected (st st' : closure) : Prop :=
  (∀ i cls, observedElements st' !! i = Some cls
            → observedElements st !! i = Some cls)
  ∧ ∃ added, calls st' = calls st ++ added
             ∧ Forall (fun c : call => is_connected c.2 = false) added.

(** The observer the [i]-th call of a sequence of registrations
    constructs. *)
Definition observer_of_call (i : nat) (arg : string * jsval * node * bool)
  : MutationObserver :=
  let '(name, _, root, childList) := arg in
  {| callback := i;
     observing := Some (ident root, observe_options [name] childList) |}.

(** An element with a matching descendant, both carrying [x]. *)
Definition sample_inner : node :=
  Node 6 HTMLElementNode {["x" := "in"]} [].

Definition sample_outer : node :=
  Node 5 HTMLElementNode {["x" := "out"]} [sample_inner].

(** ** Dispatch record by record, as a table

    What one attribute record is expected to do, by its old value, the
    value its target has when the record is handled and whether the
    target has an instance then.  A record without old value whose target
    has an instance is given no entry. *)

Inductive dispatch :=
| Connect (value : option string)
| Change (newValue oldValue : string)
| Disconnect
| NoCallback.

Definition record_dispatch (name : string) (tracked : bool)
    (record : MutationRecord) : option dispatch :=
  match oldValue record, getAttribute (target record) name with
  | None, now => if tracked then None else Some (Connect now)
  | Some old, None => Some (if tracked then Disconnect else NoCallback)
  | Some old, Some now =>
      Some (if tracked && bool_decide (now ≠ old) then Change now old
            else NoCallback)
  end.

(** The call and the store a dispatch leads to: connect makes the
    instance of the target and stores it, change and disconnect are
    called on the stored instance, disconnect takes it out. *)
Definition dispatch_effect (name : string) (k : nat) (target : node)
    (d : dispatch) (obs : gmap nat CustomAttribute)
  : list call * gmap nat CustomAttribute :=
  match d, obs !! ident target with
  | Connect value, _ =>
      ([(instance_for k name target, connectedCallback value)],
       <[ident target := instance_for k name target]> obs)
  | Change now old, Some cls =>
      ([(cls, changedCallback (Some now) (Some old))], obs)
  | Disconnect, Some cls =>
      ([(cls, disconnectedCallback)], delete (ident target) obs)
  | _, _ => ([], obs)
  end.

(** The calls and the store after a batch handled by the table, record
    after record; [None] when a record has no entry. *)
Fixpoint dispatch_by_record (name : string) (k : nat)
    (mutationList : list MutationRecord) (obs : gmap nat CustomAttribute)
  : option (list call * gmap nat CustomAttribute) :=
  match mutationList with
  | [] => Some ([], obs)
  | record :: rest =>
      let tracked := bool_decide (is_Some (obs !! ident (target record))) in
      match record_dispatch name tracked record with
      | None => None
      | Some d =>
          let '(cs, obs1) := dispatch_effect name k (target record) d obs in
          match dispatch_by_record name k rest obs1 with
          | Some (cs', obs2) => Some (cs ++ cs', obs2)
          | None => None
          end
      end
  end.

(** * Properties *)

(** ** The closure monad *)

Lemma closure_eta (st : closure) :
  {| observedElements := observedElements st; calls := calls st |} = st.
Proof. by destruct st. Qed.

Lemma bind_ret_tt (m : M unit) (st : closure) : (m ;; ret tt) st = m st.
Proof.
  unfold bind, ret. destruct (m st) as [[[]|e] st']; reflexivity.
Qed.

Lemma new_calls_app (before added : list call) :
  new_calls before (before ++ added) = added.
Proof. unfold new_calls. by rewrite drop_app_length. Qed.

Lemma calls_on_app (i : nat) (cs1 cs2 : list call) :
  calls_on i (cs1 ++ cs2) = calls_on i cs1 ++ calls_on i cs2.
Proof. unfold calls_on. by rewrite filter_app, fmap_app. Qed.

Lemma calls_on_singleton (i : nat) (cls : CustomAttribute) (m : method) :
  calls_on i [(cls, m)] = if decide (host cls = i) then [m] else [].
Proof.
  unfold calls_on. rewrite filter_cons, filter_nil. simpl.
  destruct (decide (host cls = i)); reflexivity.
Qed.

(** ** [newAttribute] with a class as factory *)

Lemma newAttribute_class (name : string) (k : nat) (el : node) (st : closure) :
  newAttribute name (JClass k) el st
  = (Normal tt,
     {| observedElements :=
          <[ident el := instance_for k name el]> (observedElements st);
        calls := calls st ++ [connect_call k name el] |}).
Proof. reflexivity. Qed.

Lemma forEach_newAttribute (name : string) (k : nat) (l : list node)
    (st : closure) :
  forEach l (newAttribute name (JClass k)) st
  = (Normal tt,
     {| observedElements :=
          foldl (fun m el => <[ident el := instance_for k name el]> m)
                (observedElements st) l;
        calls := calls st ++ (connect_call k name <$> l) |}).
Proof.
  revert st. induction l as [|el l IH]; intros st; simpl.
  - unfold ret. by rewrite app_nil_r, closure_eta.
  - unfold bind at 1. rewrite newAttribute_class, IH. simpl.
    by rewrite <- app_assoc.
Qed.

(** ** Registration *)

Lemma hook_calls_set_observing (o : nat) (x : option (nat * ObserverInit))
    (w : world) :
  hook_calls (set_observing o x w) = hook_calls w.
Proof. reflexivity. Qed.

(** What [acquire_observer] does when the name is not yet listed: the
    log of hook calls and the console are as before. *)
Lemma acquire_observer_fresh (name : string) (root : node) (w : world) :
  ¬ already_registered name root w →
  ∃ observer attributeFilter w',
    acquire_observer name root w = (Some (observer, attributeFilter), w')
    ∧ hook_calls w' = hook_calls w
    ∧ console w' = console w.
Proof.
  intros Hfresh. unfold acquire_observer.
  destruct (registries w !! ident root) as [entry|] eqn:Hreg.
  - case_bool_decide as Hin.
    + exfalso. apply Hfresh. by exists entry.
    + by eexists _, _, _.
  - by eexists _, _, _.
Qed.

(** No revision ever writes to [registries]. *)
Lemma registries_acquire_observer (name : string) (root : node) (w : world) :
  registries (acquire_observer name root w).2 = registries w.
Proof.
  unfold acquire_observer.
  destruct (registries w !! ident root) as [entry|]; [|reflexivity].
  by case_bool_decide.
Qed.

Lemma registries_registerAttribute (name : string) (customAttribute : jsval)
    (root : node) (childList : bool) (w : world) :
  registries (MainJs.registerAttribute name customAttribute root childList w).2
  = registries w.
Proof.
  unfold MainJs.registerAttribute.
  pose proof (registries_acquire_observer name root w) as Hreg.
  destruct (acquire_observer name root w) as [[[observer filter]|] w'];
    simpl in *; [|done].
  unfold run_initial_pass.
  by destruct (MainJs.initial_pass _ _ _ _ _) as [r st].
Qed.

(** A world whose [registries] is empty has no name registered. *)
Lemma not_registered_empty (name : string) (root : node) (w : world) :
  registries w = ∅ → ¬ already_registered name root w.
Proof.
  intros Hempty (entry & Hlookup & _). by rewrite Hempty in Hlookup.
Qed.

Lemma initial_pass_class (name : string) (k : nat) (root : node)
    (childList : bool) (st : closure) :
  has_querySelectorAll root = true →
  MainJs.initial_pass name (JClass k) root childList st
  = forEach (scan_targets name root childList) (newAttribute name (JClass k)) st.
Proof.
  intros Hparent.
  unfold MainJs.initial_pass, scan_targets, call_querySelectorAll.
  rewrite Hparent.
  destruct childList; [done|].
  destruct (instanceofElement root); [|done].
  simpl. by rewrite bind_ret_tt.
Qed.

(** The initial pass with [childList] true connects the elements below
    the root that carry the attribute, those of [querySelectorAll], once
    each in document order, each with the current value of the attribute
    on that element; all of the calls are in the log when
    [registerAttribute] returns, which it does normally.  The root is a
    document or an element; the root itself is not among the elements
    connected. *)
Theorem initial_scan_below_root (name : string) (k : nat) (root : node)
    (w : world) :
  plain_name name = true →
  has_querySelectorAll root = true →
  ¬ already_registered name root w →
  ∃ w', MainJs.registerAttribute name (JClass k) root true w = (Normal tt, w')
        ∧ new_calls (hook_calls w) (hook_calls w')
          = connect_call k name
              <$> filter (fun d => instanceofElement d && hasAttribute d name)
                    (descendants root)
        ∧ length (new_calls (hook_calls w) (hook_calls w'))
          = length (filter
                      (fun d => instanceofElement d && hasAttribute d name)
                      (descendants root)).
Proof.
  intros _ Hparent Hfresh. unfold MainJs.registerAttribute.
  destruct (acquire_observer_fresh name root w Hfresh)
    as (observer & filter & w1 & -> & Hcalls & _).
  unfold run_initial_pass.
  rewrite (initial_pass_class name k root true) by done.
  unfold scan_targets. rewrite forEach_newAttribute. simpl.
  eexists. split; [reflexivity|]. simpl.
  rewrite ?hook_calls_set_observing, Hcalls, new_calls_app.
  by rewrite length_fmap.
Qed.

Lemma initial_scan_below_root_witness :
  plain_name "x" = true
  ∧ has_querySelectorAll sample_document = true
  ∧ ¬ already_registered "x" sample_document initial_world
  ∧ ∃ w', MainJs.registerAttribute "x" (JClass 7) sample_document true
          initial_world = (Normal tt, w')
        ∧ new_calls (hook_calls initial_world) (hook_calls w')
          = connect_call 7 "x"
              <$> filter (fun d => instanceofElement d && hasAttribute d "x")
                    (descendants sample_document)
        ∧ length (new_calls (hook_calls initial_world) (hook_calls w'))
          = length (filter
                      (fun d => instanceofElement d && hasAttribute d "x")
                      (descendants sample_document)).
Proof.
  assert (Hfresh : ¬ already_registered "x" sample_document initial_world)
    by (apply not_registered_empty; reflexivity).
  split; [reflexivity|]. split; [reflexivity|]. split; [exact Hfresh|].
  exact (initial_scan_below_root "x" 7 sample_document initial_world
           eq_refl eq_refl Hfresh).
Defined.

(** C6 fails on a root that carries the attribute itself.  The element
    [sample_outer] carries [x] and so does its child: the scope holds two
    elements carrying the attribute.  Registering on it with [childList]
    true returns normally after one connectedCallback, the one on the
    child, and the root has no instance, in src/main.js and in the later
    revision alike.  The other paths of the same function do reach the
    root: with [childList] false the root is connected; and the handler
    of a registration with [childList] true connects a root that gets the
    attribute afterwards, while it drops the record of a change on the
    root the initial pass left out. *)
Theorem C6_root_is_not_scanned :
  let r := MainJs.registerAttribute "x" (JClass 7) sample_outer true
             initial_world in
  let scope := filter (fun n => instanceofElement n && hasAttribute n "x")
                 (sample_outer :: descendants sample_outer) in
  scope = [sample_outer; sample_inner]
  ∧ r.1 = Normal tt
  ∧ hook_calls r.2 = [connect_call 7 "x" sample_inner]
  ∧ reg_observedElements <$> registrations r.2
    = [ {[ ident sample_inner := instance_for 7 "x" sample_inner ]} ]
  ∧ hook_calls (Part001.registerAttribute "x" (JClass 7) sample_outer true
                  initial_world).2
    = [connect_call 7 "x" sample_inner]
  ∧ hook_calls (MainJs.registerAttribute "x" (JClass 7) sample_outer false
                  initial_world).2
    = [connect_call 7 "x" sample_outer]
  ∧ (let changed := script_batch "x" [SetAttribute "new"] sample_outer in
     length changed.2 = 1
     ∧ hook_calls (deliver MainJs.mutationHandler 0 changed.2 r.2).2
       = hook_calls r.2)
  ∧ (let r0 := MainJs.registerAttribute "x" (JClass 7) sample_bare true
                 initial_world in
     let added := script_batch "x" [SetAttribute "v"] sample_bare in
     hook_calls r0.2 = []
     ∧ hook_calls (deliver MainJs.mutationHandler 0 added.2 r0.2).2
       = [connect_call 7 "x" added.1]).
Proof. vm_compute. split_and!; reflexivity. Qed.

(** Registering while [registries] is empty: a new observer is
    constructed and started with the one-name filter, and the initial
    pass runs. *)
Lemma registerAttribute_unregistered (name : string) (k : nat) (root : node)
    (childList : bool) (w : world) :
  has_querySelectorAll root = true →
  registries w = ∅ →
  MainJs.registerAttribute name (JClass k) root childList w
  = (Normal tt,
     {| registries := ∅;
        observers := observers w ++
          [{| callback := length (registrations w);
              observing :=
                Some (ident root, observe_options [name] childList) |}];
        registrations := registrations w ++
          [{| reg_name := name; reg_customAttribute := JClass k;
              reg_observedElements :=
                foldl (fun m el => <[ident el := instance_for k name el]> m)
                      ∅ (scan_targets name root childList) |}];
        console := console w;
        hook_calls := hook_calls w ++
          (connect_call k name <$> scan_targets name root childList) |}).
Proof.
  intros Hparent Hempty.
  unfold MainJs.registerAttribute, acquire_observer.
  rewrite Hempty, lookup_empty. simpl.
  unfold run_initial_pass.
  rewrite initial_pass_class, forEach_newAttribute by done. simpl.
  unfold observer_observe, set_observing. simpl.
  rewrite lookup_app_r by done. rewrite Nat.sub_diag. simpl.
  rewrite Hempty. do 2 f_equal.
  rewrite insert_app_r_alt by done.
  by rewrite Nat.sub_diag.
Qed.

Lemma console_registerAttribute (name : string) (customAttribute : jsval)
    (root : node) (childList : bool) (w : world) :
  registries w = ∅ →
  console (MainJs.registerAttribute name customAttribute root childList w).2
  = console w.
Proof.
  intros Hempty. unfold MainJs.registerAttribute, acquire_observer.
  rewrite Hempty, lookup_empty. simpl. unfold run_initial_pass.
  by destruct (MainJs.initial_pass _ _ _ _ _) as [r st].
Qed.

(** Whatever is registered after the module was loaded, and in whatever
    order, [registries] stays empty and nothing is printed: the branch of
    the duplicate check is dead. *)
Lemma register_all_no_diagnostic (args : list (string * jsval * node * bool)) :
  ∀ w, registries w = ∅ →
       registries (register_all args w) = ∅
       ∧ console (register_all args w) = console w.
Proof.
  induction args as [|[[[name customAttribute] root] childList] rest IH];
    intros w Hempty; [done|].
  cbn [register_all].
  destruct (IH (MainJs.registerAttribute name customAttribute root childList
                  w).2) as [Hreg Hcon].
  { by rewrite registries_registerAttribute. }
  split; [done|]. by rewrite Hcon, console_registerAttribute.
Qed.

(** C4. The duplicate check never fires: [registries] is read but never
    written.  Registering the same name on the same root a second time
    prints no diagnostic, constructs a second observer and repeats the
    initial pass, so every matching element is connected again. *)
Theorem C4_duplicate_not_detected (name : string) (k : nat) (root : node)
    (childList : bool) :
  has_querySelectorAll root = true →
  let w1 := (MainJs.registerAttribute name (JClass k) root childList
               initial_world).2 in
  let w2 := (MainJs.registerAttribute name (JClass k) root childList w1).2 in
  console w2 = []
  ∧ length (observers w2) = 2
  ∧ hook_calls w1 = connect_call k name <$> scan_targets name root childList
  ∧ new_calls (hook_calls w1) (hook_calls w2)
    = connect_call k name <$> scan_targets name root childList.
Proof.
  intros Hparent w1 w2. subst w1 w2.
  rewrite (registerAttribute_unregistered _ _ _ _ initial_world) by done.
  rewrite registerAttribute_unregistered by done.
  simpl. rewrite new_calls_app. done.
Qed.

Lemma C4_duplicate_not_detected_witness :
  has_querySelectorAll sample_document = true
  ∧ let w1 := (MainJs.registerAttribute "x" (JClass 7) sample_document true
                 initial_world).2 in
    let w2 := (MainJs.registerAttribute "x" (JClass 7) sample_document true
                 w1).2 in
    console w2 = []
    ∧ length (observers w2) = 2
    ∧ hook_calls w1
      = connect_call 7 "x" <$> scan_targets "x" sample_document true
    ∧ new_calls (hook_calls w1) (hook_calls w2)
      = connect_call 7 "x" <$> scan_targets "x" sample_document true.
Proof.
  split; [reflexivity|].
  exact (C4_duplicate_not_detected "x" 7 sample_document true eq_refl).
Defined.

(** C5. Each registration constructs an observer of its own, started with
    a filter that holds its own name only: after two registrations with
    names [a] and [b] on one root there are two observers on that root,
    neither of them with the combined filter, and none was restarted. *)
Theorem C5_observer_per_registration (a b : string) (k1 k2 : nat)
    (root : node) (childList : bool) :
  has_querySelectorAll root = true →
  let w1 := (MainJs.registerAttribute a (JClass k1) root childList
               initial_world).2 in
  let w2 := (MainJs.registerAttribute b (JClass k2) root childList w1).2 in
  observers w2
  = [ {| callback := 0;
         observing := Some (ident root, observe_options [a] childList) |};
      {| callback := 1;
         observing := Some (ident root, observe_options [b] childList) |} ]
  ∧ length (observers_of (ident root) w2) = 2
  ∧ registries w2 = ∅.
Proof.
  intros Hparent w1 w2. subst w1 w2.
  rewrite (registerAttribute_unregistered _ _ _ _ initial_world) by done.
  rewrite registerAttribute_unregistered by done.
  simpl. split_and!; [done| |done].
  unfold observers_of. simpl.
  rewrite !filter_cons, filter_nil. unfold observes. simpl.
  rewrite !bool_decide_eq_true_2 by done. done.
Qed.

Lemma C5_observer_per_registration_witness :
  has_querySelectorAll sample_document = true
  ∧ let w1 := (MainJs.registerAttribute "a" (JClass 7) sample_document true
                 initial_world).2 in
    let w2 := (MainJs.registerAttribute "b" (JClass 8) sample_document true
                 w1).2 in
    observers w2
    = [ {| callback := 0;
           observing := Some (ident sample_document,
                              observe_options ["a"] true) |};
        {| callback := 1;
           observing := Some (ident sample_document,
                              observe_options ["b"] true) |} ]
    ∧ length (observers_of (ident sample_document) w2) = 2
    ∧ registries w2 = ∅.
Proof.
  split; [reflexivity|].
  exact (C5_observer_per_registration "a" "b" 7 8 sample_document true
           eq_refl).
Defined.

(** ** Registration on the root alone *)

(** C7 fails on an element root without the attribute.  In src/main.js
    and in the revision without parameter checks no error is raised:
    [newAttribute(root)] runs unguarded, connectedCallback is called with
    the value [null] and the instance is stored for an element that does
    not carry the attribute.  The revision with parameter checks connects
    no root at all: it rejects a class as factory, and with an instance
    of CustomAttribute as factory the observer is constructed and started
    and [new] then raises a TypeError, whether the root carries the
    attribute or not. *)
Theorem C7_root_without_attribute_is_connected :
  instanceofElement sample_bare = true
  ∧ hasAttribute sample_bare "x" = false
  ∧ (MainJs.registerAttribute "x" (JClass 7) sample_bare false
       initial_world).1 = Normal tt
  ∧ hook_calls (MainJs.registerAttribute "x" (JClass 7) sample_bare false
                  initial_world).2
    = [(instance_for 7 "x" sample_bare, connectedCallback None)]
  ∧ reg_observedElements
      <$> registrations (MainJs.registerAttribute "x" (JClass 7) sample_bare
                           false initial_world).2
    = [ {[ ident sample_bare := instance_for 7 "x" sample_bare ]} ]
  ∧ (Part001.registerAttribute "x" (JClass 7) sample_bare false
       initial_world).1 = Normal tt
  ∧ hook_calls (Part001.registerAttribute "x" (JClass 7) sample_bare false
                  initial_world).2
    = [(instance_for 7 "x" sample_bare, connectedCallback None)]
  ∧ Part001.Checked.registerAttribute sample_document (JStr "x") (JClass 7)
      (JNode sample_bare) (JBool false) initial_world
    = (Thrown (Error "expected parameter customAttribute to be an instance of CustomAttribute"),
       initial_world)
  ∧ (let r := Part001.Checked.registerAttribute sample_document (JStr "x")
                (JInstance 7) (JNode sample_bare) (JBool false)
                initial_world in
     r.1 = Thrown TypeError
     ∧ hook_calls r.2 = []
     ∧ observers r.2
       = [ {| callback := 0;
              observing := Some (ident sample_bare,
                                 observe_options ["x"] false) |} ])
  ∧ (let r := Part001.Checked.registerAttribute sample_document (JStr "x")
                (JInstance 7) (JNode sample_el) (JBool false)
                initial_world in
     hasAttribute sample_el "x" = true
     ∧ r.1 = Thrown TypeError
     ∧ hook_calls r.2 = []).
Proof. vm_compute. split_and!; reflexivity. Qed.

(** With [childList] false and a class as factory, in src/main.js and in
    the revision without parameter checks: a root that is an element
    carrying the attribute is connected, connectedCallback being invoked
    once with the current value.  A root that is no element is never
    connected; the later revision then throws an error, src/main.js
    returns normally. *)
Theorem root_only_registration (name : string) (k : nat) (root : node) (w : world) :
  ¬ already_registered name root w →
  (instanceofElement root = true → hasAttribute root name = true →
   ∃ w1 w2,
     MainJs.registerAttribute name (JClass k) root false w = (Normal tt, w1)
     ∧ new_calls (hook_calls w) (hook_calls w1) = [connect_call k name root]
     ∧ Part001.registerAttribute name (JClass k) root false w
       = (Normal tt, w2)
     ∧ new_calls (hook_calls w) (hook_calls w2) = [connect_call k name root])
  ∧ (instanceofElement root = false →
     ∃ w1 w2 msg,
       MainJs.registerAttribute name (JClass k) root false w = (Normal tt, w1)
       ∧ hook_calls w1 = hook_calls w
       ∧ Part001.registerAttribute name (JClass k) root false w
         = (Thrown (Error msg), w2)
       ∧ hook_calls w2 = hook_calls w).
Proof.
  intros Hfresh.
  destruct (acquire_observer_fresh name root w Hfresh)
    as (observer & filter & w' & Hacq & Hcalls & _).
  unfold MainJs.registerAttribute, Part001.registerAttribute.
  rewrite Hacq. unfold run_initial_pass, MainJs.initial_pass,
    Part001.initial_pass.
  split.
  - intros -> _. rewrite newAttribute_class. simpl.
    eexists _, _. split_and!; try reflexivity; simpl;
      by rewrite Hcalls, new_calls_app.
  - intros ->. simpl. eexists _, _, _. split_and!; try reflexivity; done.
Qed.

Lemma root_only_registration_witness :
  ¬ already_registered "x" sample_el initial_world
  ∧ instanceofElement sample_el = true
  ∧ hasAttribute sample_el "x" = true
  ∧ ∃ w1 w2,
     MainJs.registerAttribute "x" (JClass 7) sample_el false initial_world
       = (Normal tt, w1)
     ∧ new_calls (hook_calls initial_world) (hook_calls w1)
       = [connect_call 7 "x" sample_el]
     ∧ Part001.registerAttribute "x" (JClass 7) sample_el false initial_world
       = (Normal tt, w2)
     ∧ new_calls (hook_calls initial_world) (hook_calls w2)
       = [connect_call 7 "x" sample_el].
Proof.
  assert (Hfresh : ¬ already_registered "x" sample_el initial_world)
    by (apply not_registered_empty; reflexivity).
  split; [exact Hfresh|].
  split; [reflexivity|]. split; [reflexivity|].
  exact (proj1 (root_only_registration "x" 7 sample_el initial_world Hfresh)
           eq_refl eq_refl).
Defined.

(** ** The parameter checks of the checking revision *)

(** Each of the four checks throws before anything else is done: the
    world is as it was. *)
Lemma checks_throw_first (document : node)
    (name customAttribute root childList : jsval) (w : world) :
  let root' := match root with JUndefined => JNode document | _ => root end in
  let childList' :=
    match childList with JUndefined => JBool true | _ => childList end in
  typeof name ≠ "string"
  ∨ instanceofCustomAttribute customAttribute = false
  ∨ Part001.Checked.is_HTMLElement root' = false
  ∨ typeof childList' ≠ "boolean" →
  ∃ msg,
    Part001.Checked.registerAttribute document name customAttribute root
      childList w = (Thrown (Error msg), w).
Proof.
  intros root' childList' Hbad.
  unfold Part001.Checked.registerAttribute.
  fold root' childList'.
  destruct (String.eqb (typeof name) "string") eqn:Hname; simpl;
    [|by eexists].
  destruct (instanceofCustomAttribute customAttribute) eqn:Hca; simpl;
    [|by eexists].
  destruct (Part001.Checked.is_HTMLElement root') eqn:Hroot; simpl;
    [|by eexists].
  destruct (String.eqb (typeof childList') "boolean") eqn:Hcl; simpl;
    [|by eexists].
  apply String.eqb_eq in Hname, Hcl.
  destruct Hbad as [?|[?|[?|?]]]; congruence.
Qed.

(** C8. The check of the factory is [customAttribute instanceof
    CustomAttribute], which holds for an instance of the class and fails
    for the class.  An instance, which is no factory, passes all checks:
    the observer is constructed and started, and the error is the
    TypeError of [new customAttribute(...)] in the initial pass.  The
    class itself, the documented argument, is rejected. *)
Theorem C8_instance_passes_the_checks :
  let r := Part001.Checked.registerAttribute sample_document
             (JStr "x") (JInstance 7) (JNode sample_body) (JBool true)
             initial_world in
  r.1 = Thrown TypeError
  ∧ observers r.2
    = [ {| callback := 0;
           observing := Some (ident sample_body,
                              observe_options ["x"] true) |} ]
  ∧ (Part001.Checked.registerAttribute sample_document
       (JStr "x") (JClass 7) (JNode sample_body) (JBool true)
       initial_world).1
    = Thrown (Error "expected parameter customAttribute to be an instance of CustomAttribute").
Proof. vm_compute. done. Qed.

(** ** One attribute record *)

(** The three outcomes of the attributes branch, by the old value of the
    record, the store, and the value the element has now. *)
Lemma attributes_branch_cases (name : string) (customAttribute : jsval)
    (record : MutationRecord) (st : closure) :
  attributes_branch name customAttribute record st
  = match oldValue record with
    | None => newAttribute name customAttribute (target record) st
    | Some old =>
        match observedElements st !! ident (target record) with
        | None => (Normal tt, st)
        | Some cls =>
            match getAttribute (target record) name with
            | None =>
                (Normal tt,
                 {| observedElements :=
                      delete (ident (target record)) (observedElements st);
                    calls := calls st ++ [(cls, disconnectedCallback)] |})
            | Some new =>
                if decide (new = old) then (Normal tt, st)
                else
                  (Normal tt,
                   {| observedElements := observedElements st;
                      calls := calls st ++
                        [(cls, changedCallback (Some new) (Some old))] |})
            end
        end
    end.
Proof.
  unfold attributes_branch, bind, observed_has, observed_get.
  destruct (oldValue record) as [old|]; [|reflexivity].
  destruct (observedElements st !! ident (target record)) as [cls|] eqn:Hobs;
    destruct (getAttribute (target record) name) as [new|] eqn:Hnew;
    repeat case_bool_decide; simpl; try rewrite Hobs;
    try destruct (decide (new = old)); simplify_eq; try done;
    try (by exfalso; eauto).
Qed.

Lemma mutationHandler_attribute_cons (name : string) (customAttribute : jsval)
    (record : MutationRecord) (rest : list MutationRecord) :
  type record = attributes_t →
  instanceofElement (target record) = true →
  MainJs.mutationHandler name customAttribute (record :: rest)
  = (attributes_branch name customAttribute record ;;
     MainJs.mutationHandler name customAttribute rest).
Proof.
  intros Htype Helem. simpl. rewrite Htype, Helem.
  rewrite bool_decide_eq_false_2 by done.
  rewrite bool_decide_eq_true_2 by done. reflexivity.
Qed.

Lemma store_wf_insert (obs : gmap nat CustomAttribute) (k : nat)
    (name : string) (el : node) :
  store_wf obs → store_wf (<[ident el := instance_for k name el]> obs).
Proof.
  intros Hwf i cls. rewrite lookup_insert.
  case_decide; [|by apply Hwf]. by intros [= <-]; subst.
Qed.

Lemma store_wf_delete (obs : gmap nat CustomAttribute) (i : nat) :
  store_wf obs → store_wf (delete i obs).
Proof.
  intros Hwf j cls. rewrite lookup_delete.
  case_decide; [done|]. by apply Hwf.
Qed.

(** One attribute record makes at most one call, on its own target, and
    returns normally. *)
Lemma attributes_branch_step (name : string) (k : nat)
    (record : MutationRecord) (st : closure) :
  store_wf (observedElements st) →
  ∃ st' added,
    attributes_branch name (JClass k) record st = (Normal tt, st')
    ∧ calls st' = calls st ++ added
    ∧ store_wf (observedElements st')
    ∧ ∀ i, length (calls_on i added)
           ≤ (if decide (ident (target record) = i) then 1 else 0).
Proof.
  intros Hwf. rewrite attributes_branch_cases.
  assert (Hnone : ∃ st' added,
    (Normal tt, st) = (@Normal unit tt, st')
    ∧ calls st' = calls st ++ added
    ∧ store_wf (observedElements st')
    ∧ ∀ i, length (calls_on i added)
           ≤ (if decide (ident (target record) = i) then 1 else 0)).
  { exists st, []. split_and!; [done|by rewrite app_nil_r|done|].
    intros i. simpl. lia. }
  destruct (oldValue record) as [old|].
  - destruct (observedElements st !! ident (target record)) as [cls|] eqn:Hobs;
      [|done].
    pose proof (Hwf _ _ Hobs) as Hhost.
    destruct (getAttribute (target record) name) as [new|].
    + destruct (decide (new = old)); [done|].
      eexists _, _. split_and!; [done|done|done|].
      intros i. rewrite calls_on_singleton, Hhost.
      destruct (decide (ident (target record) = i)); simpl; lia.
    + eexists _, _. split_and!; [done|done|by apply store_wf_delete|].
      intros i. rewrite calls_on_singleton, Hhost.
      destruct (decide (ident (target record) = i)); simpl; lia.
  - rewrite newAttribute_class. eexists _, _.
    split_and!; [done|done|by apply store_wf_insert|].
    intros i. unfold connect_call. rewrite calls_on_singleton. simpl.
    destruct (decide (ident (target record) = i)); simpl; lia.
Qed.

(** ** Batches of attribute records *)

Lemma mutationHandler_singleton (name : string) (customAttribute : jsval)
    (record : MutationRecord) (st : closure) :
  type record = attributes_t →
  instanceofElement (target record) = true →
  MainJs.mutationHandler name customAttribute [record] st
  = attributes_branch name customAttribute record st.
Proof.
  intros Htype Helem.
  rewrite mutationHandler_attribute_cons by done.
  apply bind_ret_tt.
Qed.

Lemma mutationHandler_replay (name : string) (customAttribute : jsval)
    (mutationList : list MutationRecord) :
  attribute_batch mutationList →
  ∀ st, MainJs.mutationHandler name customAttribute mutationList st
        = replay MainJs.mutationHandler name customAttribute mutationList st.
Proof.
  unfold replay.
  induction 1 as [|record rest [Htype Helem] _ IH]; intros st; [done|].
  rewrite mutationHandler_attribute_cons by done.
  cbn [forEach]. unfold bind.
  rewrite mutationHandler_singleton by done.
  destruct (attributes_branch name customAttribute record st)
    as [[[]|e] st1]; [apply IH|done].
Qed.

Lemma mutationHandler_bound (name : string) (k : nat)
    (mutationList : list MutationRecord) :
  attribute_batch mutationList →
  ∀ st, store_wf (observedElements st) →
  ∃ st' added,
    MainJs.mutationHandler name (JClass k) mutationList st = (Normal tt, st')
    ∧ calls st' = calls st ++ added
    ∧ store_wf (observedElements st')
    ∧ ∀ i, length (calls_on i added) ≤ records_on i mutationList.
Proof.
  induction 1 as [|record rest [Htype Helem] _ IH]; intros st Hwf.
  - exists st, []. split_and!; [done|by rewrite app_nil_r|done|].
    intros i. simpl. lia.
  - rewrite mutationHandler_attribute_cons by done.
    destruct (attributes_branch_step name k record st Hwf)
      as (st1 & added1 & Hrun1 & Hcalls1 & Hwf1 & Hbound1).
    destruct (IH st1 Hwf1) as (st2 & added2 & Hrun2 & Hcalls2 & Hwf2 & Hbound2).
    exists st2, (added1 ++ added2).
    split_and!; [|by rewrite Hcalls2, Hcalls1, app_assoc|done|].
    + unfold bind. by rewrite Hrun1.
    + intros i. rewrite calls_on_app, length_app.
      unfold records_on. rewrite filter_cons.
      specialize (Hbound1 i). specialize (Hbound2 i).
      unfold records_on in Hbound2.
      destruct (decide (ident (target record) = i)); simpl; lia.
Qed.

(** The records behind the first record of removed or added nodes are
    never handled: the branch of that record ends with [return]. *)
Lemma mutationHandler_returns_early (name : string) (customAttribute : jsval)
    (record : MutationRecord) (rest : list MutationRecord) (st : closure) :
  type record = childList_t →
  removedNodes record ≠ [] ∨ addedNodes record ≠ [] →
  MainJs.mutationHandler name customAttribute (record :: rest) st
  = MainJs.mutationHandler name customAttribute [record] st.
Proof.
  intros Htype Hnodes. cbn [MainJs.mutationHandler]. rewrite Htype.
  rewrite bool_decide_eq_true_2 by done. simpl.
  destruct (removedNodes record) as [|r rs]; [|done].
  destruct (addedNodes record) as [|a ads]; [|done].
  by destruct Hnodes.
Qed.

(** C1 as stated fails on two attribute records for one element: after
    [x] went from 1 to 2 to 3 on the sample element, the batch holds two
    records and the element receives two changedCallback calls, both with
    the value 3. *)
Lemma C1_two_callbacks_in_one_batch :
  let batch :=
    (script_batch "x" [SetAttribute "2"; SetAttribute "3"] sample_el).2 in
  let w' := (deliver MainJs.mutationHandler 0 batch sample_world).2 in
  length batch = 2
  ∧ calls_on 1 (new_calls (hook_calls sample_world) (hook_calls w'))
    = [changedCallback (Some "3") (Some "1");
       changedCallback (Some "3") (Some "2")]
  ∧ ¬ at_most_one_callback_per_element
        (new_calls (hook_calls sample_world) (hook_calls w')).
Proof.
  split; [reflexivity|]. split; [vm_compute; reflexivity|].
  intros Hone. specialize (Hone 1). vm_compute in Hone. lia.
Qed.

(** One record handled by the code is the entry of the table for it. *)
Lemma attributes_branch_dispatch (name : string) (k : nat)
    (record : MutationRecord) (st : closure) (d : dispatch) :
  record_dispatch name
    (bool_decide (is_Some (observedElements st !! ident (target record))))
    record = Some d →
  attributes_branch name (JClass k) record st
  = (Normal tt,
     {| observedElements :=
          (dispatch_effect name k (target record) d (observedElements st)).2;
        calls :=
          calls st
          ++ (dispatch_effect name k (target record) d
                (observedElements st)).1 |}).
Proof.
  rewrite attributes_branch_cases. unfold record_dispatch, dispatch_effect.
  destruct (oldValue record) as [old|];
    destruct (observedElements st !! ident (target record)) as [cls|] eqn:Hobs;
    destruct (getAttribute (target record) name) as [now|] eqn:Hnow;
    repeat case_bool_decide; simpl; intros Hd; simplify_eq; simpl;
    rewrite ?Hobs, ?app_nil_r, ?closure_eta, ?newAttribute_class;
    unfold connect_call; rewrite ?Hnow;
    try destruct (decide (now = old)); simplify_eq;
    try done; try (by exfalso; eauto);
    by rewrite decide_True.
Qed.

(** C1, as the code has it.  A batch of attribute records is handled
    record by record.  Each record is dispatched when it is reached, by
    its old value, the value its target has then and whether the target
    has an instance then: connect with the value the element has now,
    change with that value and the old value of the record, disconnect,
    or nothing.  Whenever the table has an entry for every record, the
    handler returns normally, the calls it adds are those of the table in
    record order and the store is the one the table leaves; handling the
    batch is the same as handling each record as a batch of its own; and
    an element receives at most as many callbacks as there are records on
    it. *)
Theorem C1_record_by_record (name : string) (k : nat)
    (mutationList : list MutationRecord) (st : closure)
    (cs : list call) (obs' : gmap nat CustomAttribute) :
  attribute_batch mutationList →
  store_wf (observedElements st) →
  dispatch_by_record name k mutationList (observedElements st)
  = Some (cs, obs') →
  MainJs.mutationHandler name (JClass k) mutationList st
  = (Normal tt, {| observedElements := obs'; calls := calls st ++ cs |})
  ∧ MainJs.mutationHandler name (JClass k) mutationList st
    = replay MainJs.mutationHandler name (JClass k) mutationList st
  ∧ ∀ i, length (calls_on i cs) ≤ records_on i mutationList.
Proof.
  intros Hbatch Hwf Htable.
  assert (Hrun : MainJs.mutationHandler name (JClass k) mutationList st
    = (Normal tt, {| observedElements := obs'; calls := calls st ++ cs |})).
  { clear Hwf. revert st cs Htable.
    induction Hbatch as [|record rest [Htype Helem] _ IH]; intros st cs Htable.
    - simpl in Htable. simplify_eq. by rewrite app_nil_r, closure_eta.
    - cbn [dispatch_by_record] in Htable. cbv zeta in Htable.
      destruct (record_dispatch name _ record) as [d|] eqn:Hd; [|done].
      rewrite mutationHandler_attribute_cons by done. unfold bind.
      rewrite (attributes_branch_dispatch _ _ _ _ _ Hd).
      destruct (dispatch_effect name k (target record) d (observedElements st))
        as [cs1 obs1].
      destruct (dispatch_by_record name k rest obs1) as [[cs2 obs2]|] eqn:Hrest;
        [|done].
      simplify_eq. simpl.
      rewrite (IH {| observedElements := obs1; calls := calls st ++ cs1 |} cs2)
        by done.
      simpl. by rewrite app_assoc. }
  split; [done|]. split; [by apply mutationHandler_replay|].
  destruct (mutationHandler_bound name k mutationList Hbatch st Hwf)
    as (st' & added & Hrun' & Hcalls & _ & Hbound).
  rewrite Hrun in Hrun'. simplify_eq. simpl in Hcalls.
  apply app_inv_head in Hcalls. by subst.
Qed.

Lemma C1_record_by_record_witness :
  let batch :=
    (script_batch "x" [SetAttribute "2"; SetAttribute "3"] sample_el).2 in
  let cls := instance_for 7 "x" sample_el in
  let cs := [(cls, changedCallback (Some "3") (Some "1"));
             (cls, changedCallback (Some "3") (Some "2"))] in
  attribute_batch batch
  ∧ store_wf (observedElements sample_closure)
  ∧ dispatch_by_record "x" 7 batch (observedElements sample_closure)
    = Some (cs, observedElements sample_closure)
  ∧ MainJs.mutationHandler "x" (JClass 7) batch sample_closure
    = (Normal tt, {| observedElements := observedElements sample_closure;
                     calls := calls sample_closure ++ cs |})
  ∧ MainJs.mutationHandler "x" (JClass 7) batch sample_closure
    = replay MainJs.mutationHandler "x" (JClass 7) batch sample_closure
  ∧ ∀ i, length (calls_on i cs) ≤ records_on i batch.
Proof.
  intros batch cls cs.
  assert (Hbatch : attribute_batch batch).
  { repeat constructor. }
  assert (Hwf : store_wf (observedElements sample_closure)).
  { intros i c Hlookup. simpl in Hlookup.
    apply lookup_singleton_Some in Hlookup as [<- <-]. reflexivity. }
  assert (Htable :
    dispatch_by_record "x" 7 batch (observedElements sample_closure)
    = Some (cs, observedElements sample_closure)).
  { vm_compute. reflexivity. }
  split; [exact Hbatch|]. split; [exact Hwf|]. split; [exact Htable|].
  exact (C1_record_by_record "x" 7 batch sample_closure cs
           (observedElements sample_closure) Hbatch Hwf Htable).
Defined.

(** ** What the calls of a computation look like *)

Lemma logs_ret {A} (P : call → Prop) (a : A) : logs P (ret a).
Proof. intros st. exists []. by rewrite app_nil_r. Qed.

Lemma logs_throw {A} (P : call → Prop) (e : error) : logs P (@throw A e).
Proof. intros st. exists []. by rewrite app_nil_r. Qed.

Lemma logs_bind {A B} (P : call → Prop) (m : M A) (f : A → M B) :
  logs P m → (∀ a, logs P (f a)) → logs P (bind m f).
Proof.
  intros Hm Hf st. unfold bind.
  destruct (Hm st) as (added1 & Hcalls1 & HP1).
  destruct (m st) as [[a|e] st1]; simpl in *.
  - destruct (Hf a st1) as (added2 & Hcalls2 & HP2).
    exists (added1 ++ added2). split.
    + by rewrite Hcalls2, Hcalls1, app_assoc.
    + by apply Forall_app.
  - by exists added1.
Qed.

Lemma logs_observed_has (P : call → Prop) (n : node) :
  logs P (observed_has n).
Proof. intros st. exists []. by rewrite app_nil_r. Qed.

Lemma logs_observed_get (P : call → Prop) (n : node) :
  logs P (observed_get n).
Proof. intros st. exists []. by rewrite app_nil_r. Qed.

Lemma logs_observed_set (P : call → Prop) (n : node) (cls : CustomAttribute) :
  logs P (observed_set n cls).
Proof. intros st. exists []. by rewrite app_nil_r. Qed.

Lemma logs_observed_delete (P : call → Prop) (n : node) :
  logs P (observed_delete n).
Proof. intros st. exists []. by rewrite app_nil_r. Qed.

Lemma logs_invoke (P : call → Prop) (cls : CustomAttribute) (m : method) :
  P (cls, m) → logs P (invoke cls m).
Proof. intros HP st. exists [(cls, m)]. split; [done|]. by constructor. Qed.

Lemma logs_invoke_on (P : call → Prop) (o : option CustomAttribute)
    (m : method) :
  (∀ cls, P (cls, m)) → logs P (invoke_on o m).
Proof.
  intros HP. destruct o; [by apply logs_invoke|apply logs_throw].
Qed.

Lemma logs_invoke_opt (P : call → Prop) (o : option CustomAttribute)
    (m : method) :
  (∀ cls, P (cls, m)) → logs P (invoke_opt o m).
Proof.
  intros HP. destruct o; [by apply logs_invoke|apply logs_ret].
Qed.

Lemma logs_forEach {A} (P : call → Prop) (l : list A) (body : A → M unit) :
  (∀ x, x ∈ l → logs P (body x)) → logs P (forEach l body).
Proof.
  induction l as [|x l IH]; intros Hbody; simpl.
  - apply logs_ret.
  - apply logs_bind.
    + apply Hbody. by left.
    + intros _. apply IH. intros y Hy. apply Hbody. by right.
Qed.

Create HintDb logs.
#[local] Hint Resolve logs_ret logs_throw logs_observed_has logs_observed_get
  logs_observed_set logs_observed_delete : logs.

Lemma logs_newAttribute (P : call → Prop) (name : string)
    (customAttribute : jsval) (el : node) :
  (∀ cls, host cls = ident el →
          P (cls, connectedCallback (getAttribute el name))) →
  logs P (newAttribute name customAttribute el).
Proof.
  intros HP st.
  destruct customAttribute;
    try (exists []; by rewrite app_nil_r).
  rewrite newAttribute_class. simpl. eexists. split; [done|].
  constructor; [|done]. by apply HP.
Qed.

Lemma logs_disconnect_if_observed (P : call → Prop) (n : node) :
  (∀ cls, P (cls, disconnectedCallback)) →
  logs P (disconnect_if_observed n).
Proof.
  intros HP. unfold disconnect_if_observed.
  apply logs_bind; [auto with logs|]. intros [|]; [|auto with logs].
  apply logs_bind; [auto with logs|]. intros cls.
  by apply logs_invoke_opt.
Qed.

Lemma logs_attributes_branch (P : call → Prop) (name : string)
    (customAttribute : jsval) (record : MutationRecord) :
  (∀ cls, host cls = ident (target record) →
          P (cls, connectedCallback (getAttribute (target record) name))) →
  (∀ cls, P (cls, disconnectedCallback)) →
  (∀ cls old,
     oldValue record = Some old →
     getAttribute (target record) name ≠ Some old →
     P (cls, changedCallback (getAttribute (target record) name) (Some old))) →
  logs P (attributes_branch name customAttribute record).
Proof.
  intros Hconnect Hdisconnect Hchange st.
  rewrite attributes_branch_cases.
  destruct (oldValue record) as [old|] eqn:Hold.
  - destruct (observedElements st !! ident (target record)) as [cls|];
      [|exists []; by rewrite app_nil_r].
    destruct (getAttribute (target record) name) as [new|] eqn:Hnew.
    + destruct (decide (new = old)) as [->|Hne];
        [exists []; by rewrite app_nil_r|].
      simpl. eexists. split; [done|]. constructor; [|done].
      apply Hchange; [done|congruence].
    + simpl. eexists. split; [done|]. by constructor.
  - by apply logs_newAttribute.
Qed.

Lemma elem_of_connectable_added (name : string) (record : MutationRecord)
    (a n : node) :
  a ∈ addedNodes record → n = a ∨ n ∈ querySelectorAll a name →
  n ∈ connectable name record.
Proof.
  intros Ha Hn. unfold connectable. right.
  apply list_elem_of_In, in_flat_map. exists a. split.
  - by apply list_elem_of_In.
  - apply list_elem_of_In. destruct Hn as [->|Hn]; [by left|by right].
Qed.

(** The calls of a batch: a connect passes the value its element has
    now, a change passes the value its target has now and the old value
    of the record, and only when the two differ. *)
Lemma logs_mutationHandler (P : call → Prop) (name : string)
    (customAttribute : jsval) (mutationList : list MutationRecord) :
  (∀ record n cls,
     record ∈ mutationList → n ∈ connectable name record →
     host cls = ident n →
     P (cls, connectedCallback (getAttribute n name))) →
  (∀ cls, P (cls, disconnectedCallback)) →
  (∀ record cls old,
     record ∈ mutationList → type record = attributes_t →
     oldValue record = Some old →
     getAttribute (target record) name ≠ Some old →
     P (cls, changedCallback (getAttribute (target record) name) (Some old))) →
  logs P (MainJs.mutationHandler name customAttribute mutationList).
Proof.
  intros Hconnect Hdisconnect Hchange.
  induction mutationList as [|record rest IH]; [apply logs_ret|].
  cbn [MainJs.mutationHandler].
  destruct (bool_decide (type record = childList_t)
            && (0 <? length (removedNodes record))).
  { apply logs_bind; [|auto with logs].
    apply logs_forEach. intros removedNode _.
    destruct (instanceofElement removedNode); [|auto with logs].
    destruct (hasAttribute removedNode name).
    - by apply logs_disconnect_if_observed.
    - apply logs_forEach. intros n _. by apply logs_disconnect_if_observed. }
  destruct (bool_decide (type record = childList_t)
            && (0 <? length (addedNodes record))).
  { apply logs_bind; [|auto with logs].
    apply logs_forEach. intros addedNode Hadded.
    destruct (instanceofElement addedNode); [|auto with logs].
    destruct (hasAttribute addedNode name).
    - apply logs_newAttribute. intros cls Hhost.
      apply (Hconnect record); [by left| |done].
      eapply elem_of_connectable_added; eauto.
    - apply logs_forEach. intros n Hn.
      apply logs_newAttribute. intros cls Hhost.
      apply (Hconnect record); [by left| |done].
      eapply elem_of_connectable_added; eauto. }
  apply logs_bind.
  - case_bool_decide as Htype; simpl; [|auto with logs].
    destruct (instanceofElement (target record)); [|auto with logs].
    apply logs_attributes_branch.
    + intros cls Hhost. apply (Hconnect record); [by left|by left|done].
    + done.
    + intros cls old Hold Hne. apply (Hchange record); [by left|done..].
  - intros _. apply IH.
    + intros r n cls Hr. apply Hconnect. by right.
    + intros r cls old Hr. apply Hchange. by right.
Qed.

Lemma logs_new_calls {A} (P : call → Prop) (m : M A) (st : closure) (c : call) :
  logs P m → c ∈ new_calls (calls st) (calls (m st).2) → P c.
Proof.
  intros Hlogs. destruct (Hlogs st) as (added & -> & HP).
  rewrite new_calls_app. intros Hc.
  by apply (proj1 (Forall_forall _ _) HP).
Qed.

(** The calls of a batch, described call by call. *)
Lemma mutationHandler_calls (name : string) (customAttribute : jsval)
    (mutationList : list MutationRecord) (st : closure)
    (cls : CustomAttribute) (m : method) :
  (cls, m) ∈ new_calls (calls st)
    (calls (MainJs.mutationHandler name customAttribute mutationList st).2) →
  match m with
  | connectedCallback value =>
      ∃ record n, record ∈ mutationList ∧ n ∈ connectable name record
                  ∧ host cls = ident n ∧ value = getAttribute n name
  | changedCallback newValue old =>
      ∃ record, record ∈ mutationList ∧ type record = attributes_t
                ∧ newValue = getAttribute (target record) name
                ∧ old = oldValue record
                ∧ newValue ≠ old
  | disconnectedCallback => True
  end.
Proof.
  set (P := fun c : call =>
    match c.2 with
    | connectedCallback value =>
        ∃ record n, record ∈ mutationList ∧ n ∈ connectable name record
                    ∧ host c.1 = ident n ∧ value = getAttribute n name
    | changedCallback newValue old =>
        ∃ record, record ∈ mutationList ∧ type record = attributes_t
                  ∧ newValue = getAttribute (target record) name
                  ∧ old = oldValue record
                  ∧ newValue ≠ old
    | disconnectedCallback => True
    end).
  intros Hin.
  apply (logs_new_calls P
           (MainJs.mutationHandler name customAttribute mutationList)
           st (cls, m)); [|done].
  apply logs_mutationHandler; unfold P; simpl.
  - intros record n c Hrecord Hn Hhost. by exists record, n.
  - done.
  - intros record c old Hrecord Htype Hold Hne. exists record.
    split_and!; done.
Qed.

(** C9 as stated fails on a batch of two mutations.  On the sample
    element [x] is 1.  After [x] is set to 1, its current value, and then
    to 2, both records hold the old value 1 and are compared with the
    value at dispatch, 2: the record of the set that changed nothing
    invokes changedCallback, alone or in the batch.  After [x] is set to
    2 and back to 1 the value is the one it was, and changedCallback is
    invoked. *)
Lemma C9_noop_set_calls_changed :
  let first := script_batch "x" [SetAttribute "1"; SetAttribute "2"]
                 sample_el in
  let second := script_batch "x" [SetAttribute "2"; SetAttribute "1"]
                  sample_el in
  let after batch :=
    calls_on 1
      (new_calls (calls sample_closure)
         (calls (MainJs.mutationHandler "x" (JClass 7) batch
                   sample_closure).2)) in
  getAttribute sample_el "x" = Some "1"
  ∧ oldValue <$> first.2 = [Some "1"; Some "1"]
  ∧ after (take 1 first.2) = [changedCallback (Some "2") (Some "1")]
  ∧ after first.2 = [changedCallback (Some "2") (Some "1");
                     changedCallback (Some "2") (Some "1")]
  ∧ getAttribute second.1 "x" = getAttribute sample_el "x"
  ∧ after second.2 = [changedCallback (Some "1") (Some "2")].
Proof. vm_compute. split_and!; reflexivity. Qed.

(** C9, as the code has it.  A mutation that sets the attribute to the
    value it has, delivered in a batch of its own, invokes no
    changedCallback.  In any batch changedCallback is invoked only for an
    attributes record whose old value differs from the value the target
    has when the record is handled, with these two values; a single
    record invokes it only on the instance the store holds for its
    target; a record whose old value is the value the target has when it
    is handled invokes no changedCallback; an attributes record with an
    old value whose target has no instance in the store does nothing and
    raises nothing. *)
Theorem C9_changed_only_on_tracked_change (name : string)
    (customAttribute : jsval) :
  (∀ e value st cls newValue old,
     getAttribute e name = Some value →
     (cls, changedCallback newValue old)
       ∉ new_calls (calls st)
           (calls (MainJs.mutationHandler name customAttribute
                     (script_batch name [SetAttribute value] e).2 st).2))
  ∧ (∀ mutationList st cls newValue old,
     (cls, changedCallback newValue old)
       ∈ new_calls (calls st)
           (calls (MainJs.mutationHandler name customAttribute
                     mutationList st).2) →
     newValue ≠ old
     ∧ ∃ record, record ∈ mutationList ∧ type record = attributes_t
                 ∧ newValue = getAttribute (target record) name
                 ∧ old = oldValue record)
  ∧ (∀ record st cls newValue old,
       (cls, changedCallback newValue old)
         ∈ new_calls (calls st)
             (calls (MainJs.mutationHandler name customAttribute
                       [record] st).2) →
       observedElements st !! ident (target record) = Some cls)
  ∧ (∀ record st cls newValue old,
       oldValue record = getAttribute (target record) name →
       (cls, changedCallback newValue old)
         ∉ new_calls (calls st)
             (calls (MainJs.mutationHandler name customAttribute
                       [record] st).2))
  ∧ (∀ record st old,
       type record = attributes_t →
       oldValue record = Some old →
       observedElements st !! ident (target record) = None →
       MainJs.mutationHandler name customAttribute [record] st
       = (Normal tt, st)).
Proof.
  assert (Hsame : ∀ record st cls newValue old,
    oldValue record = getAttribute (target record) name →
    (cls, changedCallback newValue old)
      ∉ new_calls (calls st)
          (calls (MainJs.mutationHandler name customAttribute
                    [record] st).2)).
  { intros record st cls newValue old Hsame Hin.
    apply mutationHandler_calls in Hin
      as (record' & Hrecord & _ & Hnew & Hold & Hne).
    apply list_elem_of_singleton in Hrecord as ->. congruence. }
  split_and!.
  - intros e value st cls newValue old Hvalue.
    unfold script_batch. cbn [apply_ops apply_op]. rewrite app_nil_r.
    cbn [fmap list_fmap]. apply Hsame. simpl.
    unfold getAttribute, setAttribute in *. simpl.
    by rewrite lookup_insert_eq.
  - intros mutationList st cls newValue old Hin.
    apply mutationHandler_calls in Hin as (record & ? & ? & ? & ? & ?).
    split; [done|]. by exists record.
  - intros record st cls newValue old Hin.
    pose proof (mutationHandler_calls _ _ _ _ _ _ Hin)
      as (record' & Hrecord & Htype & _).
    apply list_elem_of_singleton in Hrecord as ->.
    revert Hin. cbn [MainJs.mutationHandler]. rewrite Htype.
    rewrite bool_decide_eq_false_2 by done.
    rewrite bool_decide_eq_true_2 by done. simpl.
    rewrite !bind_ret_tt.
    destruct (instanceofElement (target record)).
    + rewrite attributes_branch_cases.
      destruct (oldValue record) as [old'|].
      * destruct (observedElements st !! ident (target record)) as [cls'|];
          [|unfold new_calls; rewrite drop_all; by intros ?%elem_of_nil].
        destruct (getAttribute (target record) name) as [new|].
        -- destruct (decide (new = old'));
             [unfold new_calls; rewrite drop_all; by intros ?%elem_of_nil|].
           simpl. rewrite new_calls_app.
           intros Hin%list_elem_of_singleton. congruence.
        -- simpl. rewrite new_calls_app.
           intros Hin%list_elem_of_singleton. congruence.
      * destruct customAttribute; simpl;
          try (unfold new_calls; rewrite drop_all; by intros ?%elem_of_nil).
        rewrite new_calls_app. unfold connect_call.
        intros Hin%list_elem_of_singleton. congruence.
    + unfold ret, new_calls. simpl. rewrite drop_all. by intros ?%elem_of_nil.
  - exact Hsame.
  - intros record st old Htype Hold Hobs.
    cbn [MainJs.mutationHandler]. rewrite Htype.
    rewrite bool_decide_eq_false_2 by done.
    rewrite bool_decide_eq_true_2 by done. simpl.
    rewrite !bind_ret_tt.
    destruct (instanceofElement (target record)); [|done].
    by rewrite attributes_branch_cases, Hold, Hobs.
Qed.

Lemma C9_changed_only_on_tracked_change_witness :
  getAttribute sample_el "x" = Some "1"
  ∧ ((instance_for 7 "x" sample_el, changedCallback (Some "1") (Some "1"))
       ∉ new_calls (calls sample_closure)
           (calls (MainJs.mutationHandler "x" (JClass 7)
                     (script_batch "x" [SetAttribute "1"] sample_el).2
                     sample_closure).2))
  ∧ type (attribute_record "x" sample_el (Some "0")) = attributes_t
  ∧ oldValue (attribute_record "x" sample_el (Some "0")) = Some "0"
  ∧ MainJs.mutationHandler "x" (JClass 7)
      [attribute_record "x" sample_el (Some "0")]
      {| observedElements := ∅; calls := [] |}
    = (Normal tt, {| observedElements := ∅; calls := [] |}).
Proof.
  split; [reflexivity|].
  split.
  { exact (proj1 (C9_changed_only_on_tracked_change "x" (JClass 7))
             sample_el "1" sample_closure (instance_for 7 "x" sample_el)
             (Some "1") (Some "1") eq_refl). }
  split; [reflexivity|]. split; [reflexivity|].
  exact (proj2 (proj2 (proj2 (proj2
           (C9_changed_only_on_tracked_change "x" (JClass 7)))))
           (attribute_record "x" sample_el (Some "0"))
           {| observedElements := ∅; calls := [] |} "0"
           eq_refl eq_refl eq_refl).
Defined.

(** C10. The value handed to connectedCallback is the value of the
    attribute on the host element when the handler runs, and so is the
    new value handed to changedCallback; a record holds no new value at
    all.  After [x] was set to a and removed again on an element without
    instance, the one batch makes connectedCallback receive null; after
    [x] went from 1 to 2 to 3, the record of the first mutation makes
    changedCallback receive 3. *)
Theorem C10_values_are_read_live (name : string) (customAttribute : jsval) :
  (∀ mutationList st cls value,
     (cls, connectedCallback value)
       ∈ new_calls (calls st)
           (calls (MainJs.mutationHandler name customAttribute
                     mutationList st).2) →
     ∃ record n, record ∈ mutationList ∧ n ∈ connectable name record
                 ∧ host cls = ident n ∧ value = getAttribute n name)
  ∧ (∀ mutationList st cls newValue old,
       (cls, changedCallback newValue old)
         ∈ new_calls (calls st)
             (calls (MainJs.mutationHandler name customAttribute
                       mutationList st).2) →
       ∃ record, record ∈ mutationList
                 ∧ newValue = getAttribute (target record) name
                 ∧ old = oldValue record)
  ∧ (∀ element st cls value,
       (cls, connectedCallback value)
         ∈ new_calls (calls st)
             (calls (newAttribute name customAttribute element st).2) →
       value = getAttribute element name)
  ∧ calls (MainJs.mutationHandler "x" (JClass 7)
             (script_batch "x" [SetAttribute "a"; RemoveAttribute]
                sample_bare).2
             {| observedElements := ∅; calls := [] |}).2
    = [(instance_for 7 "x" sample_bare, connectedCallback None);
       (instance_for 7 "x" sample_bare, disconnectedCallback)]
  ∧ new_calls (calls sample_closure)
      (calls (MainJs.mutationHandler "x" (JClass 7)
                (script_batch "x" [SetAttribute "2"; SetAttribute "3"]
                   sample_el).2
                sample_closure).2)
    = [(instance_for 7 "x" sample_el,
        changedCallback (Some "3") (Some "1"));
       (instance_for 7 "x" sample_el,
        changedCallback (Some "3") (Some "2"))].
Proof.
  split_and!.
  - intros mutationList st cls value Hin.
    by apply mutationHandler_calls in Hin.
  - intros mutationList st cls newValue old Hin.
    apply mutationHandler_calls in Hin as (record & ? & ? & ? & ? & ?).
    by exists record.
  - intros element st cls value Hin.
    apply (logs_new_calls
             (fun c => match c.2 with
                       | connectedCallback v => v = getAttribute element name
                       | _ => True
                       end)
             (newAttribute name customAttribute element) st
             (cls, connectedCallback value)); [|done].
    by apply logs_newAttribute.
  - vm_compute. reflexivity.
  - vm_compute. reflexivity.
Qed.

Lemma C10_values_are_read_live_witness :
  (instance_for 7 "x" sample_bare, connectedCallback None)
    ∈ new_calls []
        (calls (MainJs.mutationHandler "x" (JClass 7)
                  (script_batch "x" [SetAttribute "a"; RemoveAttribute]
                     sample_bare).2
                  {| observedElements := ∅; calls := [] |}).2)
  ∧ ∃ record n,
      record ∈ (script_batch "x" [SetAttribute "a"; RemoveAttribute]
                  sample_bare).2
      ∧ n ∈ connectable "x" record
      ∧ host (instance_for 7 "x" sample_bare) = ident n
      ∧ None = getAttribute n "x".
Proof.
  assert (Hin :
    (instance_for 7 "x" sample_bare, connectedCallback None)
      ∈ new_calls (calls {| observedElements := ∅; calls := [] |})
          (calls (MainJs.mutationHandler "x" (JClass 7)
                    (script_batch "x" [SetAttribute "a"; RemoveAttribute]
                       sample_bare).2
                    {| observedElements := ∅; calls := [] |}).2)).
  { vm_compute. left. }
  split; [exact Hin|].
  exact (proj1 (C10_values_are_read_live "x" (JClass 7)) _ _ _ _ Hin).
Defined.

(** ** Moving a tracked element *)

(** C2. Moving the tracked element of the sample page inside the
    document queues a removal record and an addition record.  On this
    batch the handler invokes disconnectedCallback on the element and
    returns at the end of the first record; the addition record is never
    looked at.  The later revision also drops the element from its store,
    although the element is in the document and carries the attribute. *)
Theorem C2_move_fires_disconnect :
  let batch := [removal_record sample_document sample_el;
                addition_record sample_document sample_el] in
  let w := (deliver MainJs.mutationHandler 0 batch sample_world).2 in
  let v := (Part001.registerAttribute "x" (JClass 7) sample_document true
              initial_world).2 in
  let v' := (deliver Part001.mutationHandler 0 batch v).2 in
  new_calls (hook_calls sample_world) (hook_calls w)
  = [(instance_for 7 "x" sample_el, disconnectedCallback)]
  ∧ new_calls (hook_calls v) (hook_calls v')
    = [(instance_for 7 "x" sample_el, disconnectedCallback)]
  ∧ reg_observedElements <$> registrations v' = [∅]
  ∧ (deliver MainJs.mutationHandler 0 batch sample_world).2
    = (deliver MainJs.mutationHandler 0
         [removal_record sample_document sample_el] sample_world).2.
Proof. vm_compute. done. Qed.

(** ** Attribute mutations *)

Lemma hasAttribute_getAttribute (e : node) (name : string) :
  hasAttribute e name = true ↔ is_Some (getAttribute e name).
Proof. unfold hasAttribute, getAttribute. apply bool_decide_eq_true. Qed.

Lemma hasAttribute_false (e : node) (name : string) :
  hasAttribute e name = false ↔ getAttribute e name = None.
Proof.
  unfold hasAttribute, getAttribute. rewrite bool_decide_eq_false.
  rewrite <- eq_None_not_Some. done.
Qed.

Lemma apply_op_ident (name : string) (op : attr_op) (e : node) :
  ident (apply_op name op e).1 = ident e
  ∧ instanceofElement (apply_op name op e).1 = instanceofElement e.
Proof.
  destruct op; simpl; [done|]. by destruct (hasAttribute e name).
Qed.

Lemma apply_ops_ident (name : string) (ops : list attr_op) (e : node) :
  ident (apply_ops name ops e).1 = ident e
  ∧ instanceofElement (apply_ops name ops e).1 = instanceofElement e.
Proof.
  revert e. induction ops as [|op ops IH]; intros e; simpl; [done|].
  pose proof (apply_op_ident name op e) as [Hid Hel].
  destruct (apply_op name op e) as [e1 olds1]; simpl in *.
  destruct (IH e1) as [Hid2 Hel2].
  destruct (apply_ops name ops e1) as [e2 olds2]; simpl in *.
  split; congruence.
Qed.

(** The first record of a batch holds the value the element had when the
    batch began; a batch without records leaves the element as it was. *)
Lemma apply_ops_first_old (name : string) (ops : list attr_op) (e : node) :
  match (apply_ops name ops e).2 with
  | [] => (apply_ops name ops e).1 = e
  | old :: _ => old = getAttribute e name
  end.
Proof.
  revert e. induction ops as [|op ops IH]; intros e; simpl; [done|].
  destruct op; simpl.
  - by destruct (apply_ops name ops (setAttribute e name value)).
  - destruct (hasAttribute e name); simpl.
    + by destruct (apply_ops name ops (removeAttribute e name)).
    + specialize (IH e). by destruct (apply_ops name ops e).
Qed.

(** ** Counting calls *)

Lemma connected_count_app (i : nat) (cs1 cs2 : list call) :
  connected_count i (cs1 ++ cs2)
  = connected_count i cs1 + connected_count i cs2.
Proof.
  unfold connected_count. by rewrite calls_on_app, filter_app, length_app.
Qed.

Lemma disconnected_count_app (i : nat) (cs1 cs2 : list call) :
  disconnected_count i (cs1 ++ cs2)
  = disconnected_count i cs1 + disconnected_count i cs2.
Proof.
  unfold disconnected_count. by rewrite calls_on_app, filter_app, length_app.
Qed.

Lemma connected_count_singleton (i : nat) (cls : CustomAttribute) (m : method) :
  connected_count i [(cls, m)]
  = if decide (host cls = i) then (if is_connected m then 1 else 0) else 0.
Proof.
  unfold connected_count. rewrite calls_on_singleton.
  destruct (decide (host cls = i)); [|done]. by destruct m.
Qed.

Lemma disconnected_count_singleton (i : nat) (cls : CustomAttribute)
    (m : method) :
  disconnected_count i [(cls, m)]
  = if decide (host cls = i) then (if is_disconnected m then 1 else 0) else 0.
Proof.
  unfold disconnected_count. rewrite calls_on_singleton.
  destruct (decide (host cls = i)); [|done]. by destruct m.
Qed.

(** ** One batch of attribute mutations on one element *)

Lemma mutationHandler_record_cons (name : string) (customAttribute : jsval)
    (tgt : node) (old : option string) (rest : list MutationRecord)
    (st : closure) :
  instanceofElement tgt = true →
  MainJs.mutationHandler name customAttribute
    (attribute_record name tgt old :: rest) st
  = match attributes_branch name customAttribute
            (attribute_record name tgt old) st with
    | (Normal _, st1) => MainJs.mutationHandler name customAttribute rest st1
    | (Thrown e, st1) => (Thrown e, st1)
    end.
Proof.
  intros Helem. by rewrite mutationHandler_attribute_cons.
Qed.

(** A record handled while the element ends the batch without the
    attribute. *)
Lemma draining_record (name : string) (k : nat) (tgt : node)
    (old : option string) (st : closure) :
  getAttribute tgt name = None →
  draining_inv (ident tgt) (bool_decide (is_Some old)) st →
  ∃ st1,
    attributes_branch name (JClass k) (attribute_record name tgt old) st
    = (Normal tt, st1)
    ∧ draining_inv (ident tgt) true st1
    ∧ (is_Some old → observedElements st1 !! ident tgt = None).
Proof.
  intros Hlive (Hwf & Hgone & Hcount).
  rewrite attributes_branch_cases. simpl.
  destruct old as [old|].
  - destruct (observedElements st !! ident tgt) as [cls|] eqn:Hobs.
    + rewrite Hlive. eexists. split; [done|]. unfold draining_inv. simpl.
      pose proof (Hwf _ _ Hobs) as Hhost.
      split; [|intros _; apply lookup_delete_eq].
      split_and!; [by apply store_wf_delete|done|].
      rewrite lookup_delete_eq, connected_count_app, disconnected_count_app.
      rewrite connected_count_singleton, disconnected_count_singleton.
      rewrite !decide_True by done. simpl. lia.
    + exists st. split; [done|]. split; [|done].
      split_and!; [done|done|]. by rewrite Hobs in *.
  - rewrite newAttribute_class. eexists. split; [done|].
    unfold draining_inv. simpl.
    split; [|by intros [? ?]].
    rewrite Hgone in Hcount by done.
    split_and!; [by apply store_wf_insert|done|].
    rewrite lookup_insert_eq, connected_count_app, disconnected_count_app.
    unfold connect_call.
    rewrite connected_count_singleton, disconnected_count_singleton.
    simpl. rewrite !decide_True by done. lia.
Qed.

Lemma draining_inv_weaken (i : nat) (present : bool) (st : closure) :
  draining_inv i true st →
  (present = false → observedElements st !! i = None) →
  draining_inv i present st.
Proof. intros (Hwf & _ & Hcount) Hgone. by split_and!. Qed.

(** A whole batch that ends with the attribute absent. *)
Lemma draining_batch (name : string) (k : nat) (tgt : node) :
  getAttribute tgt name = None →
  instanceofElement tgt = true →
  ∀ ops e st,
    ident e = ident tgt →
    draining_inv (ident tgt) (hasAttribute e name) st →
    ∃ st',
      MainJs.mutationHandler name (JClass k)
        (attribute_record name tgt <$> (apply_ops name ops e).2) st
      = (Normal tt, st')
      ∧ draining_inv (ident tgt) (hasAttribute (apply_ops name ops e).1 name)
          st'.
Proof.
  intros Hlive Helem.
  induction ops as [|op ops IH]; intros e st Hid Hinv; simpl.
  { by exists st. }
  assert (Hstep : ∀ e1 : node,
    ident e1 = ident tgt →
    (hasAttribute e1 name = false → is_Some (getAttribute e name)) →
    ∃ st',
      MainJs.mutationHandler name (JClass k)
        (attribute_record name tgt <$>
           (getAttribute e name :: (apply_ops name ops e1).2)) st
      = (Normal tt, st')
      ∧ draining_inv (ident tgt)
          (hasAttribute (apply_ops name ops e1).1 name) st').
  { intros e1 Hid1 Hpresent1. rewrite fmap_cons.
    rewrite mutationHandler_record_cons by done.
    destruct (draining_record name k tgt (getAttribute e name) st Hlive)
      as (st1 & -> & Hinv1 & Hgone1).
    { eapply draining_inv_weaken.
      - destruct Hinv as (Hwf & Hgone & Hcount).
        split_and!; [done|done|done].
      - intros Hnot%bool_decide_eq_false. destruct Hinv as (_ & Hgone & _).
        apply Hgone, hasAttribute_false.
        by apply eq_None_not_Some. }
    apply IH; [done|]. apply draining_inv_weaken; [done|].
    intros Habsent. by apply Hgone1, Hpresent1. }
  destruct op as [value|]; simpl.
  - specialize (Hstep (setAttribute e name value) Hid).
    destruct (apply_ops name ops (setAttribute e name value)) as [e2 olds2].
    simpl in *. apply Hstep.
    unfold hasAttribute, setAttribute. simpl.
    rewrite lookup_insert_eq. intros Hfalse%bool_decide_eq_false.
    exfalso. apply Hfalse. by eexists.
  - destruct (hasAttribute e name) eqn:Hhas.
    + specialize (Hstep (removeAttribute e name) Hid).
      destruct (apply_ops name ops (removeAttribute e name)) as [e2 olds2].
      simpl in *. apply Hstep. intros _. by apply hasAttribute_getAttribute.
    + specialize (IH e st Hid). rewrite Hhas in IH. specialize (IH Hinv).
      by destruct (apply_ops name ops e) as [e2 olds2].
Qed.

(** Records with an old value, handled while the element carries the
    attribute: changes at most, so the store and the counts stay. *)
Lemma keeping_batch (name : string) (k : nat) (tgt : node)
    (olds : list (option string)) :
  is_Some (getAttribute tgt name) →
  instanceofElement tgt = true →
  Forall (fun old => old ≠ None) olds →
  ∀ st, ∃ st',
    MainJs.mutationHandler name (JClass k)
      (attribute_record name tgt <$> olds) st = (Normal tt, st')
    ∧ observedElements st' = observedElements st
    ∧ (∀ i, connected_count i (calls st') = connected_count i (calls st))
    ∧ (∀ i, disconnected_count i (calls st')
            = disconnected_count i (calls st)).
Proof.
  intros [live Hlive] Helem.
  induction 1 as [|old olds Hold _ IH]; intros st; [by exists st|].
  rewrite fmap_cons, mutationHandler_record_cons by done.
  rewrite attributes_branch_cases. simpl.
  destruct old as [old|]; [|done].
  destruct (observedElements st !! ident tgt) as [cls|]; [|apply IH].
  rewrite Hlive. destruct (decide (live = old)); [apply IH|].
  destruct (IH {| observedElements := observedElements st;
                  calls := calls st ++
                    [(cls, changedCallback (Some live) (Some old))] |})
    as (st' & Hrun & Hobs & Hconn & Hdisc).
  exists st'. split; [done|]. split; [done|]. simpl in *. split.
  - intros i. rewrite Hconn, connected_count_app, connected_count_singleton.
    simpl. destruct (decide (host cls = i)); lia.
  - intros i. rewrite Hdisc, disconnected_count_app,
      disconnected_count_singleton.
    simpl. destruct (decide (host cls = i)); lia.
Qed.

Lemma readds_false (olds : list (option string)) :
  readds olds = false → Forall (fun old => old ≠ None) (tail olds).
Proof.
  unfold readds. generalize (tail olds). clear olds.
  induction l as [|old l IH]; simpl; [done|].
  intros [Hold Hl]%orb_false_iff. constructor; [|by apply IH].
  by apply bool_decide_eq_false in Hold.
Qed.

(** A batch that does not both re-add the attribute and end with it
    present keeps the balance. *)
Lemma batch_balance (name : string) (k : nat) (ops : list attr_op)
    (e : node) (st : closure) :
  instanceofElement e = true →
  balance_inv name e st →
  negb (readds (apply_ops name ops e).2
        && hasAttribute (apply_ops name ops e).1 name) = true →
  ∃ st',
    MainJs.mutationHandler name (JClass k)
      (attribute_record name (apply_ops name ops e).1
         <$> (apply_ops name ops e).2) st
    = (Normal tt, st')
    ∧ balance_inv name (apply_ops name ops e).1 st'.
Proof.
  intros Helem (Hwf & Htracked & Hcount) Hok.
  pose proof (apply_ops_ident name ops e) as [Hid Helem'].
  pose proof (apply_ops_first_old name ops e) as Hfirst.
  destruct (apply_ops name ops e) as [e' olds] eqn:Hcomp; simpl in *.
  rewrite Helem in Helem'.
  destruct (hasAttribute e' name) eqn:Hhas'.
  - (* the attribute is present at the end: nothing was re-added *)
    rewrite andb_true_r in Hok. apply negb_true_iff, readds_false in Hok.
    pose proof (proj1 (hasAttribute_getAttribute e' name) Hhas') as Hlive.
    destruct olds as [|old olds]; simpl in Hfirst, Hok.
    { subst e'. exists st. split; [done|]. by split_and!. }
    subst old. destruct (getAttribute e name) as [old|] eqn:Hstart.
    + (* present at the start as well *)
      assert (Hhas : hasAttribute e name = true)
        by (apply hasAttribute_getAttribute; by rewrite Hstart).
      destruct (keeping_batch name k e' (Some old :: olds) Hlive Helem'
                  ltac:(by constructor) st)
        as (st' & Hrun & Hobs & Hconn & Hdisc).
      exists st'. split; [done|]. unfold balance_inv.
      rewrite Hobs, Hconn, Hdisc, Hid, Hhas'. rewrite Hhas in Hcount.
      split_and!; [done| |done]. by rewrite Htracked, Hhas.
    + (* absent at the start: the first record connects *)
      assert (Hhas : hasAttribute e name = false)
        by by apply hasAttribute_false.
      rewrite Hhas in Hcount.
      assert (Huntracked : observedElements st !! ident e = None).
      { apply eq_None_not_Some. rewrite Htracked, Hhas. done. }
      rewrite fmap_cons, mutationHandler_record_cons by done.
      rewrite attributes_branch_cases.
      cbn [oldValue target attribute_record]. rewrite newAttribute_class.
      destruct (keeping_batch name k e' olds Hlive Helem' Hok
        {| observedElements :=
             <[ident e' := instance_for k name e']> (observedElements st);
           calls := calls st ++ [connect_call k name e'] |})
        as (st' & Hrun & Hobs & Hconn & Hdisc).
      exists st'. split; [done|]. unfold balance_inv.
      rewrite Hobs, Hconn, Hdisc, Hhas'. simpl.
      split_and!.
      * by apply store_wf_insert.
      * rewrite lookup_insert_eq. split; [done|by eexists].
      * rewrite connected_count_app, disconnected_count_app.
        unfold connect_call.
        rewrite connected_count_singleton, disconnected_count_singleton.
        simpl. rewrite !decide_True by done. rewrite Hid. lia.
  - (* the attribute is absent at the end *)
    apply hasAttribute_false in Hhas' as Hlive.
    destruct (draining_batch name k e' Hlive Helem' ops e st) as (st' & Hrun & Hinv).
    { done. }
    { rewrite Hid. split_and!; [done| |].
      - intros Hhas. apply eq_None_not_Some. rewrite Htracked, Hhas. done.
      - rewrite Hcount. f_equal.
        destruct (hasAttribute e name) eqn:Hhas.
        + destruct (proj2 Htracked eq_refl) as [cls ->]. done.
        + destruct (observedElements st !! ident e) eqn:Hobs; [|done].
          assert (false = true); [|done]. apply Htracked. by eexists. }
    rewrite Hcomp in Hrun.
    exists st'. split; [exact Hrun|].
    rewrite Hcomp in Hinv. simpl in Hinv. rewrite Hhas' in Hinv.
    destruct Hinv as (Hwf' & Hgone' & Hcount').
    unfold balance_inv. rewrite Hhas'.
    rewrite Hgone' in Hcount' by done.
    split_and!; [done| |done].
    rewrite Hgone' by done. split; [by intros [? ?]|done].
Qed.

(** ** The state a registration leaves behind *)

Lemma scan_store_wf (k : nat) (name : string) (l : list node)
    (m : gmap nat CustomAttribute) :
  store_wf m →
  store_wf (foldl (fun m el => <[ident el := instance_for k name el]> m) m l).
Proof.
  revert m. induction l as [|el l IH]; intros m Hwf; simpl; [done|].
  by apply IH, store_wf_insert.
Qed.

Lemma scan_store_lookup (k : nat) (name : string) (l : list node)
    (m : gmap nat CustomAttribute) (i : nat) :
  is_Some (foldl (fun m el => <[ident el := instance_for k name el]> m) m l
           !! i)
  ↔ i ∈ ident <$> l ∨ is_Some (m !! i).
Proof.
  revert m. induction l as [|el l IH]; intros m; simpl.
  - split; [by right|]. intros [Hin|?]; [|done]. by apply elem_of_nil in Hin.
  - rewrite IH, elem_of_cons, lookup_insert.
    destruct (decide (ident el = i)) as [->|Hne].
    + split; [by left; left|by right; eexists].
    + split; [intros [?|?]; [by left; right|by right]|].
      intros [[?|?]|?]; [congruence|by left|by right].
Qed.

Lemma connected_count_connect_call (i k : nat) (name : string) (el : node) :
  connected_count i [connect_call k name el]
  = if decide (ident el = i) then 1 else 0.
Proof. unfold connect_call. by rewrite connected_count_singleton. Qed.

Lemma disconnected_count_connect_call (i k : nat) (name : string)
    (el : node) :
  disconnected_count i [connect_call k name el] = 0.
Proof.
  unfold connect_call. rewrite disconnected_count_singleton. simpl.
  by destruct (decide (ident el = i)).
Qed.

Lemma scan_connected_count (k : nat) (name : string) (l : list node)
    (i : nat) :
  NoDup (ident <$> l) →
  connected_count i (connect_call k name <$> l)
  = (if decide (i ∈ ident <$> l) then 1 else 0)
  ∧ disconnected_count i (connect_call k name <$> l) = 0.
Proof.
  induction l as [|el l IH].
  - intros _. split; [|done].
    destruct (decide (i ∈ ident <$> [])) as [Hin|]; [|done].
    by apply elem_of_nil in Hin.
  - rewrite !fmap_cons.
    intros [Hnotin Hnodup]%NoDup_cons. destruct (IH Hnodup) as [IHc IHd].
    change (connect_call k name el :: (connect_call k name <$> l))
      with ([connect_call k name el] ++ (connect_call k name <$> l)).
    rewrite connected_count_app, disconnected_count_app, IHc, IHd.
    rewrite connected_count_connect_call, disconnected_count_connect_call.
    split; [|done].
    destruct (decide (ident el = i)) as [<-|Hne].
    + rewrite (decide_False (P := ident el ∈ ident <$> l)) by done.
      rewrite decide_True by (by left). done.
    + destruct (decide (i ∈ ident <$> l)) as [Hin'|Hnin'].
      * rewrite decide_True by (by right). done.
      * rewrite decide_False; [done|].
        intros [?|?]%elem_of_cons; congruence.
Qed.

Lemma NoDup_fmap_eq {A B} (f : A → B) (l : list A) (x y : A) :
  NoDup (f <$> l) → x ∈ l → y ∈ l → f x = f y → x = y.
Proof.
  induction l as [|z l IH]; simpl; [by intros _ ?%elem_of_nil|].
  intros [Hnotin Hnodup]%NoDup_cons [->|Hx]%elem_of_cons [->|Hy]%elem_of_cons
    Heq; [done| | |by apply IH].
  - exfalso. apply Hnotin. rewrite Heq. by apply list_elem_of_fmap_2.
  - exfalso. apply Hnotin. rewrite <- Heq. by apply list_elem_of_fmap_2.
Qed.

Lemma scan_finds (name : string) (root e : node) :
  e ∈ descendants root →
  instanceofElement e = true →
  NoDup (ident <$> descendants root) →
  NoDup (ident <$> querySelectorAll root name)
  ∧ (ident e ∈ ident <$> querySelectorAll root name
     ↔ hasAttribute e name = true).
Proof.
  intros Hin Helem Hnodup. unfold querySelectorAll. split.
  - eapply sublist_NoDup; [exact Hnodup|].
    apply fmap_sublist, sublist_filter.
  - split.
    + intros (d & Hid & Hd)%list_elem_of_fmap.
      apply list_elem_of_filter in Hd as [Hd Hdin].
      assert (d = e) as -> by (by eapply (NoDup_fmap_eq ident)).
      rewrite Helem in Hd. by destruct (hasAttribute e name).
    + intros Hhas. apply list_elem_of_fmap_2, list_elem_of_filter.
      split; [|done]. by rewrite Helem, Hhas.
Qed.

Lemma registration_inv (name : string) (k : nat) (root e : node) :
  has_querySelectorAll root = true →
  e ∈ descendants root →
  instanceofElement e = true →
  NoDup (ident <$> descendants root) →
  world_inv name k e
    (MainJs.registerAttribute name (JClass k) root true initial_world).2.
Proof.
  intros Hparent Hin Helem Hnodup.
  rewrite registerAttribute_unregistered by done.
  destruct (scan_finds name root e Hin Helem Hnodup) as [Hnodup' Hfound].
  eexists _, _. simpl. split_and!; try reflexivity.
  unfold balance_inv. simpl. split_and!.
  - by apply scan_store_wf.
  - rewrite scan_store_lookup, lookup_empty, <- Hfound.
    split; [intros [?|[? ?]]; done|by left].
  - destruct (scan_connected_count k name (querySelectorAll root name)
                (ident e) Hnodup') as [-> ->].
    destruct (hasAttribute e name) eqn:Hhas.
    + rewrite decide_True by (by apply Hfound). done.
    + rewrite decide_False; [done|]. rewrite Hfound. done.
Qed.

(** ** Batches delivered to the registration *)

Lemma deliver_inv (name : string) (k : nat) (ops : list attr_op) (e : node)
    (w : world) :
  instanceofElement e = true →
  world_inv name k e w →
  negb (readds (apply_ops name ops e).2
        && hasAttribute (apply_ops name ops e).1 name) = true →
  world_inv name k (apply_ops name ops e).1
    (deliver MainJs.mutationHandler 0
       (attribute_record name (apply_ops name ops e).1
          <$> (apply_ops name ops e).2) w).2.
Proof.
  intros Helem (ob & reg & Hob & Hcb & Hreg & Hname & Hclass & Hinv) Hok.
  unfold deliver. rewrite Hob, Hcb, Hreg, Hname, Hclass.
  destruct (batch_balance name k ops e _ Helem Hinv Hok)
    as (st' & -> & Hinv').
  simpl.
  exists ob, {| reg_name := name; reg_customAttribute := JClass k;
                reg_observedElements := observedElements st' |}.
  simpl. split_and!; [done|done| |done|done|by rewrite closure_eta].
  apply list_lookup_insert_eq. by eapply lookup_lt_Some.
Qed.

Lemma run_batches_inv (name : string) (k : nat)
    (batches : list (list attr_op)) :
  ∀ e w,
    instanceofElement e = true →
    world_inv name k e w →
    no_readd_kept name batches e = true →
    world_inv name k
      (run_batches MainJs.mutationHandler name 0 batches e w).1
      (run_batches MainJs.mutationHandler name 0 batches e w).2.
Proof.
  induction batches as [|ops batches IH]; intros e w Helem Hinv Hok; [done|].
  cbn [run_batches no_readd_kept] in *. unfold script_batch.
  pose proof (deliver_inv name k ops e w Helem Hinv) as Hdeliver.
  pose proof (apply_ops_ident name ops e) as [_ Helem'].
  pose proof (apply_ops_first_old name ops e) as Hfirst.
  destruct (apply_ops name ops e) as [e' olds]; simpl in Hdeliver, Helem', Hfirst.
  apply andb_true_iff in Hok as [Hok Hrest].
  specialize (Hdeliver Hok). rewrite Helem in Helem'.
  destruct olds as [|old olds].
  - simpl in Hfirst. subst e'. by apply IH.
  - by apply IH.
Qed.

(** Mutations delivered one per batch never re-add within a batch. *)
Lemma one_mutation_per_batch (name : string) (ops : list attr_op) :
  ∀ e, no_readd_kept name ((fun op => [op]) <$> ops) e = true.
Proof.
  induction ops as [|op ops IH]; intros e; [done|].
  rewrite fmap_cons. cbn [no_readd_kept apply_ops].
  destruct (apply_op name op e) as [e1 olds1] eqn:Hop.
  rewrite app_nil_r, IH, andb_true_r.
  assert (readds olds1 = false) as ->; [|done].
  destruct op; simpl in Hop.
  - by injection Hop as <- <-.
  - destruct (hasAttribute e name); by injection Hop as <- <-.
Qed.

(** C3 fails when the attribute is removed and set again before the
    batch is delivered.  Both records are handled against the value the
    element has at the end: the record of the removal is taken for a
    change, and the record of the addition makes [newAttribute] put a
    second instance in place of the tracked one, which is never
    disconnected.  The element ends with two connects and no disconnect.
    The same two mutations delivered one per batch leave the same element
    with two connects and one disconnect. *)
Theorem C3_readd_connects_twice :
  let r := run_batches MainJs.mutationHandler "x" 0
             [[RemoveAttribute; SetAttribute "2"]] sample_el sample_world in
  let r' := run_batches MainJs.mutationHandler "x" 0
              [[RemoveAttribute]; [SetAttribute "2"]] sample_el sample_world in
  hasAttribute r.1 "x" = true
  ∧ calls_on 1 (hook_calls r.2)
    = [connectedCallback (Some "1");
       changedCallback (Some "2") (Some "1");
       connectedCallback (Some "2")]
  ∧ connected_count 1 (hook_calls r.2) = 2
  ∧ disconnected_count 1 (hook_calls r.2) = 0
  ∧ ¬ balanced "x" r.1 r.2
  ∧ r'.1 = r.1
  ∧ calls_on 1 (hook_calls r'.2)
    = [connectedCallback (Some "1");
       disconnectedCallback;
       connectedCallback (Some "2")]
  ∧ balanced "x" r'.1 r'.2.
Proof.
  split_and!; try (vm_compute; reflexivity).
  unfold balanced. vm_compute. lia.
Qed.

(** The balance of connects and disconnects on an element below the root
    (a document or an element, with distinct nodes), for any sequence of
    batches of attribute mutations on it such that no batch both re-adds
    the attribute (adds it in a record other than its first) and ends
    with the attribute present; this holds in particular when every
    mutation is delivered in a batch of its own.  After the last batch
    the connects on the element exceed the disconnects by one if the
    element carries the attribute, and equal them if not. *)
Theorem balance_without_readd (name : string) (k : nat) (root e : node)
    (batches : list (list attr_op)) :
  plain_name name = true →
  has_querySelectorAll root = true →
  e ∈ descendants root →
  instanceofElement e = true →
  NoDup (ident <$> descendants root) →
  no_readd_kept name batches e = true →
  let w0 := (MainJs.registerAttribute name (JClass k) root true
               initial_world).2 in
  let r := run_batches MainJs.mutationHandler name 0 batches e w0 in
  balanced name r.1 r.2.
Proof.
  intros _ Hparent Hin Helem Hnodup Hok w0 r.
  pose proof (registration_inv name k root e Hparent Hin Helem Hnodup)
    as Hinv0.
  pose proof (run_batches_inv name k batches e w0 Helem Hinv0 Hok)
    as (ob & reg & _ & _ & _ & _ & _ & _ & _ & Hcount).
  exact Hcount.
Qed.

Lemma balance_without_readd_witness :
  let batches := [[SetAttribute "2"]; [RemoveAttribute];
                  [SetAttribute "3"; SetAttribute "4"; RemoveAttribute];
                  [SetAttribute "5"]] in
  plain_name "x" = true
  ∧ has_querySelectorAll sample_document = true
  ∧ sample_el ∈ descendants sample_document
  ∧ instanceofElement sample_el = true
  ∧ NoDup (ident <$> descendants sample_document)
  ∧ no_readd_kept "x" batches sample_el = true
  ∧ let r := run_batches MainJs.mutationHandler "x" 0 batches sample_el
               sample_world in
    balanced "x" r.1 r.2.
Proof.
  intros batches.
  assert (Hin : sample_el ∈ descendants sample_document)
    by (simpl; right; left).
  assert (Hnodup : NoDup (ident <$> descendants sample_document))
    by (simpl; apply NoDup_ListNoDup; repeat constructor;
        simpl; intuition lia).
  split; [reflexivity|]. split; [reflexivity|].
  split; [exact Hin|]. split; [reflexivity|]. split; [exact Hnodup|].
  split; [reflexivity|].
  exact (balance_without_readd "x" 7 sample_document sample_el batches
           eq_refl eq_refl Hin eq_refl Hnodup eq_refl).
Defined.

(** * Further properties of the handlers *)

(** ** How the loop over the records goes on *)

Lemma bind_ret_l (m : M unit) (st : closure) : (ret tt ;; m) st = m st.
Proof. reflexivity. Qed.

(** A record with removed nodes is the last one handled, and its added
    nodes are not looked at; a record with added nodes only is the last
    one handled as well.  This is so in src/main.js and in the later
    revisions. *)
Theorem structural_record_ends_batch (name : string) (customAttribute : jsval)
    (record : MutationRecord) (rest : list MutationRecord) (st : closure) :
  (removes record = true →
   MainJs.mutationHandler name customAttribute (record :: rest) st
   = MainJs.mutationHandler name customAttribute [without_added record] st
   ∧ Part001.mutationHandler name customAttribute (record :: rest) st
     = Part001.mutationHandler name customAttribute [without_added record] st)
  ∧ (removes record = false → adds record = true →
     MainJs.mutationHandler name customAttribute (record :: rest) st
     = MainJs.mutationHandler name customAttribute [record] st
     ∧ Part001.mutationHandler name customAttribute (record :: rest) st
       = Part001.mutationHandler name customAttribute [record] st).
Proof.
  unfold removes, adds. split.
  - intros Hremoves.
    cbn [MainJs.mutationHandler Part001.mutationHandler without_added
         type removedNodes].
    by rewrite Hremoves.
  - intros Hremoves Hadds.
    cbn [MainJs.mutationHandler Part001.mutationHandler].
    by rewrite Hremoves, Hadds.
Qed.

Lemma structural_record_ends_batch_witness :
  removes (removal_record sample_document sample_el) = true
  ∧ MainJs.mutationHandler "x" (JClass 7)
      [removal_record sample_document sample_el;
       addition_record sample_document sample_el] sample_closure
    = MainJs.mutationHandler "x" (JClass 7)
        [without_added (removal_record sample_document sample_el)]
        sample_closure.
Proof.
  split; [reflexivity|].
  exact (proj1 (proj1 (structural_record_ends_batch "x" (JClass 7)
                         (removal_record sample_document sample_el)
                         [addition_record sample_document sample_el]
                         sample_closure) eq_refl)).
Defined.

Lemma mutationHandler_ignored (name : string) (customAttribute : jsval)
    (record : MutationRecord) (rest : list MutationRecord) (st : closure) :
  ignored record = true →
  MainJs.mutationHandler name customAttribute (record :: rest) st
  = MainJs.mutationHandler name customAttribute rest st
  ∧ Part001.mutationHandler name customAttribute (record :: rest) st
    = Part001.mutationHandler name customAttribute rest st.
Proof.
  unfold ignored, removes, adds, on_element_attribute.
  intros [[Hr Ha]%andb_true_iff Ht]%andb_true_iff.
  apply negb_true_iff in Hr, Ha, Ht.
  cbn [MainJs.mutationHandler Part001.mutationHandler].
  by rewrite Hr, Ha, Ht.
Qed.

(** Records none of the branches applies to (character data, child-list
    records without nodes, attribute records whose target is no element)
    can be dropped from a batch, wherever they stand, without changing
    what the handler does. *)
Theorem ignored_records_do_nothing (name : string) (customAttribute : jsval)
    (mutationList : list MutationRecord) (st : closure) :
  MainJs.mutationHandler name customAttribute
    (filter (fun record => negb (ignored record)) mutationList) st
  = MainJs.mutationHandler name customAttribute mutationList st
  ∧ Part001.mutationHandler name customAttribute
      (filter (fun record => negb (ignored record)) mutationList) st
    = Part001.mutationHandler name customAttribute mutationList st.
Proof.
  revert st. induction mutationList as [|record rest IH]; intros st; [done|].
  rewrite filter_cons.
  destruct (ignored record) eqn:Hignored; simpl negb.
  - destruct (decide (Is_true false)) as [[]|_].
    destruct (mutationHandler_ignored name customAttribute record rest st
                Hignored) as [-> ->].
    apply IH.
  - destruct (decide (Is_true true)) as [_|Hn]; [|by destruct Hn].
    cbn [MainJs.mutationHandler Part001.mutationHandler].
    destruct (bool_decide (type record = childList_t)
              && (0 <? length (removedNodes record))); [done|].
    destruct (bool_decide (type record = childList_t)
              && (0 <? length (addedNodes record))); [done|].
    unfold bind.
    destruct ((if bool_decide (type record = attributes_t)
                  && instanceofElement (target record)
               then attributes_branch name customAttribute record
               else ret tt) st) as [[[]|e] st1]; [|done].
    apply IH.
Qed.

(** On a batch without records of removed or added nodes the later
    revisions do what src/main.js does. *)
Theorem revisions_agree_without_nodes (name : string)
    (customAttribute : jsval) (mutationList : list MutationRecord)
    (st : closure) :
  Forall (fun record => removes record = false ∧ adds record = false)
         mutationList →
  Part001.mutationHandler name customAttribute mutationList st
  = MainJs.mutationHandler name customAttribute mutationList st.
Proof.
  intros Hbatch. revert st.
  induction Hbatch as [|record rest [Hr Ha] _ IH]; intros st; [done|].
  unfold removes, adds in Hr, Ha.
  cbn [MainJs.mutationHandler Part001.mutationHandler].
  rewrite Hr, Ha. unfold bind.
  destruct ((if bool_decide (type record = attributes_t)
                && instanceofElement (target record)
             then attributes_branch name customAttribute record
             else ret tt) st) as [[[]|e] st1]; [|done].
  apply IH.
Qed.

Lemma revisions_agree_without_nodes_witness :
  let batch :=
    (script_batch "x" [SetAttribute "2"; RemoveAttribute] sample_el).2 in
  Forall (fun record => removes record = false ∧ adds record = false) batch
  ∧ Part001.mutationHandler "x" (JClass 7) batch sample_closure
    = MainJs.mutationHandler "x" (JClass 7) batch sample_closure.
Proof.
  intros batch.
  assert (Hbatch : Forall (fun record => removes record = false
                                         ∧ adds record = false) batch)
    by (repeat constructor).
  split; [exact Hbatch|].
  exact (revisions_agree_without_nodes "x" (JClass 7) batch sample_closure
           Hbatch).
Defined.

(** ** Closed forms of the nested functions *)

Lemma newAttribute_cases (name : string) (customAttribute : jsval)
    (el : node) (st : closure) :
  newAttribute name customAttribute el st
  = match customAttribute with
    | JClass k =>
        (Normal tt,
         {| observedElements :=
              <[ident el := instance_for k name el]> (observedElements st);
            calls := calls st ++ [connect_call k name el] |})
    | _ => (Thrown TypeError, st)
    end.
Proof. by destruct customAttribute. Qed.

Lemma disconnect_if_observed_cases (n : node) (st : closure) :
  disconnect_if_observed n st
  = match observedElements st !! ident n with
    | Some cls =>
        (Normal tt,
         {| observedElements := observedElements st;
            calls := calls st ++ [(cls, disconnectedCallback)] |})
    | None => (Normal tt, st)
    end.
Proof.
  unfold disconnect_if_observed, bind, observed_has, observed_get.
  destruct (observedElements st !! ident n) as [cls|] eqn:Hobs.
  - rewrite bool_decide_eq_true_2 by (by eexists). by rewrite Hobs.
  - by rewrite bool_decide_eq_false_2 by (by intros [? ?]).
Qed.

Lemma disconnect_and_delete_cases (n : node) (st : closure) :
  disconnect_and_delete_if_observed n st
  = match observedElements st !! ident n with
    | Some cls =>
        (Normal tt,
         {| observedElements := delete (ident n) (observedElements st);
            calls := calls st ++ [(cls, disconnectedCallback)] |})
    | None => (Normal tt, st)
    end.
Proof.
  unfold disconnect_and_delete_if_observed, bind, observed_has, observed_get.
  destruct (observedElements st !! ident n) as [cls|] eqn:Hobs.
  - rewrite bool_decide_eq_true_2 by (by eexists). by rewrite Hobs.
  - by rewrite bool_decide_eq_false_2 by (by intros [? ?]).
Qed.

(** ** Relations every step keeps *)

Lemma steps_ret {A} (R : closure → closure → Prop) `{!Reflexive R} (a : A) :
  steps R (ret a).
Proof. intros st. simpl. reflexivity. Qed.

Lemma steps_bind {A B} (R : closure → closure → Prop) `{!Transitive R}
    (m : M A) (f : A → M B) :
  steps R m → (∀ a, steps R (f a)) → steps R (bind m f).
Proof.
  intros Hm Hf st. unfold bind. specialize (Hm st).
  destruct (m st) as [[a|e] st1]; simpl in *; [|done].
  etrans; [exact Hm|]. apply Hf.
Qed.

Lemma steps_forEach {A} (R : closure → closure → Prop) `{!PreOrder R}
    (l : list A) (body : A → M unit) :
  (∀ x, steps R (body x)) → steps R (forEach l body).
Proof.
  intros Hbody. induction l as [|x l IH]; simpl.
  - (apply steps_ret; apply _).
  - apply steps_bind; [apply _|apply Hbody|]. by intros _.
Qed.

(** A relation kept by [newAttribute], by the two ways to disconnect a
    removed element and by the attributes branch is kept by the handler
    of either revision on any batch. *)
Lemma steps_mutationHandler (R : closure → closure → Prop) `{!PreOrder R}
    (name : string) (customAttribute : jsval) :
  (∀ el, steps R (newAttribute name customAttribute el)) →
  (∀ n, steps R (disconnect_if_observed n)) →
  (∀ n, steps R (disconnect_and_delete_if_observed n)) →
  (∀ record, steps R (attributes_branch name customAttribute record)) →
  ∀ mutationList,
    steps R (MainJs.mutationHandler name customAttribute mutationList)
    ∧ steps R (Part001.mutationHandler name customAttribute mutationList).
Proof.
  intros Hnew Hdisc Hdel Hattr.
  induction mutationList as [|record rest [IHm IHp]].
  { split; (apply steps_ret; apply _). }
  cbn [MainJs.mutationHandler Part001.mutationHandler].
  destruct (bool_decide (type record = childList_t)
            && (0 <? length (removedNodes record))).
  { split; (apply steps_bind; [apply _| |intros _; (apply steps_ret; apply _)]);
      apply steps_forEach; try apply _; intros removedNode.
    - destruct (instanceofElement removedNode); [|(apply steps_ret; apply _)].
      destruct (hasAttribute removedNode name); [apply Hdisc|].
      (apply steps_forEach; [apply _|done]).
    - destruct (instanceofElement removedNode); [|(apply steps_ret; apply _)].
      simpl. apply steps_bind; [apply _| |intros _; (apply steps_forEach; [apply _|done])].
      destruct (hasAttribute removedNode name).
      + exact (Hdel removedNode).
      + intros st. simpl. reflexivity. }
  destruct (bool_decide (type record = childList_t)
            && (0 <? length (addedNodes record))).
  { split; (apply steps_bind; [apply _| |intros _; (apply steps_ret; apply _)]);
      apply steps_forEach; try apply _; intros addedNode.
    - destruct (instanceofElement addedNode); [|(apply steps_ret; apply _)].
      destruct (hasAttribute addedNode name); [apply Hnew|].
      (apply steps_forEach; [apply _|done]).
    - destruct (instanceofElement addedNode); [|(apply steps_ret; apply _)].
      simpl. apply steps_bind; [apply _| |intros _; (apply steps_forEach; [apply _|done])].
      destruct (hasAttribute addedNode name); [apply Hnew|(apply steps_ret; apply _)]. }
  split; (apply steps_bind; [apply _| |by intros _]);
    (destruct (bool_decide (type record = attributes_t)
               && instanceofElement (target record));
     [apply Hattr|(apply steps_ret; apply _)]).
Qed.

(** ** Invariants of the store and of the call log *)

(** An invariant kept by the four nested steps is kept by the handler of
    either revision on any batch, and by either initial pass. *)
Lemma invariant_kept (Inv : closure → Prop) (name : string)
    (customAttribute : jsval) :
  (∀ el st, Inv st → Inv (newAttribute name customAttribute el st).2) →
  (∀ n st, Inv st → Inv (disconnect_if_observed n st).2) →
  (∀ n st, Inv st → Inv (disconnect_and_delete_if_observed n st).2) →
  (∀ record st,
     Inv st → Inv (attributes_branch name customAttribute record st).2) →
  ∀ st, Inv st →
    (∀ mutationList,
       Inv (MainJs.mutationHandler name customAttribute mutationList st).2
       ∧ Inv (Part001.mutationHandler name customAttribute mutationList st).2)
    ∧ (∀ root childList,
         Inv (MainJs.initial_pass name customAttribute root childList st).2
         ∧ Inv (Part001.initial_pass name customAttribute root childList st).2).
Proof.
  intros Hnew Hdisc Hdel Hattr st Hst.
  set (R := fun st st' : closure => Inv st → Inv st').
  assert (PreOrder R) as HR.
  { split; [by intros ? ?|]. intros x y z Hxy Hyz Hx. by apply Hyz, Hxy. }
  assert (∀ el, steps R (newAttribute name customAttribute el)) as Hnew'
    by (intros el s Hs; by apply Hnew).
  split.
  - intros mutationList.
    destruct (steps_mutationHandler R name customAttribute Hnew'
                (fun n s => Hdisc n s) (fun n s => Hdel n s)
                (fun r s => Hattr r s) mutationList) as [Hm Hp].
    split; [by apply Hm|by apply Hp].
  - intros root childList.
    assert (steps R (let* elements := call_querySelectorAll root name in
                     forEach elements (newAttribute name customAttribute)))
      as Hscan.
    { apply steps_bind; [apply _| |].
      - intros s Hs. unfold call_querySelectorAll.
        by destruct (has_querySelectorAll root).
      - intros elements. apply steps_forEach; [apply _|done]. }
    unfold MainJs.initial_pass, Part001.initial_pass.
    destruct childList; [split; by apply Hscan|].
    destruct (instanceofElement root); [split; by apply Hnew|done].
Qed.

Lemma store_coherent_update (name : string) (st : closure)
    (obs' : gmap nat CustomAttribute) (cs' : list call) :
  store_coherent name st →
  (∀ i cls, obs' !! i = Some cls →
            observedElements st !! i = Some cls
            ∨ (host cls = i ∧ instance_name cls = name)) →
  store_coherent name {| observedElements := obs'; calls := cs' |}.
Proof.
  intros Hst Hobs i cls Hlookup. simpl in Hlookup.
  destruct (Hobs i cls Hlookup) as [Hold|Hnew]; [by apply Hst|done].
Qed.

(** Whatever the batch and the factory, an instance in the store sits
    under the identity of its own host and bears the name of the
    registration: [observedElements.get(el).host] is [el], and its name
    is the registered one.  Both handlers and both initial passes keep
    this. *)
Theorem store_stays_coherent (name : string) (customAttribute : jsval)
    (st : closure) :
  store_coherent name st →
  (∀ mutationList,
     store_coherent name
       (MainJs.mutationHandler name customAttribute mutationList st).2
     ∧ store_coherent name
         (Part001.mutationHandler name customAttribute mutationList st).2)
  ∧ (∀ root childList,
       store_coherent name
         (MainJs.initial_pass name customAttribute root childList st).2
       ∧ store_coherent name
           (Part001.initial_pass name customAttribute root childList st).2).
Proof.
  apply invariant_kept.
  - intros el s Hs. rewrite newAttribute_cases.
    destruct customAttribute; try done. simpl.
    apply (store_coherent_update name s); [done|].
    intros i cls. rewrite lookup_insert.
    case_decide; [intros [= <-]; by right|by left].
  - intros n s Hs. rewrite disconnect_if_observed_cases.
    destruct (observedElements s !! ident n); [|done].
    apply (store_coherent_update name s); [done|]. by left.
  - intros n s Hs. rewrite disconnect_and_delete_cases.
    destruct (observedElements s !! ident n); [|done].
    apply (store_coherent_update name s); [done|].
    intros i cls [_ ?]%lookup_delete_Some. by left.
  - intros record s Hs. rewrite attributes_branch_cases.
    destruct (oldValue record).
    + destruct (observedElements s !! ident (target record)); [|done].
      destruct (getAttribute (target record) name).
      * case_decide; [done|].
        apply (store_coherent_update name s); [done|]. by left.
      * apply (store_coherent_update name s); [done|].
        intros i cls [_ ?]%lookup_delete_Some. by left.
    + rewrite newAttribute_cases.
      destruct customAttribute; try done. simpl.
      apply (store_coherent_update name s); [done|].
      intros i cls. rewrite lookup_insert.
      case_decide; [intros [= <-]; by right|by left].
Qed.

Lemma store_stays_coherent_witness :
  store_coherent "x" sample_closure
  ∧ store_coherent "x"
      (MainJs.mutationHandler "x" (JClass 7)
         [removal_record sample_document sample_el;
          addition_record sample_document sample_el] sample_closure).2.
Proof.
  assert (Hst : store_coherent "x" sample_closure).
  { intros i cls Hlookup. simpl in Hlookup.
    apply lookup_singleton_Some in Hlookup as [<- <-]. done. }
  split; [exact Hst|].
  exact (proj1 (proj1 (store_stays_coherent "x" (JClass 7) sample_closure
                         Hst) _)).
Defined.

(** One more call keeps the lifecycle in order when it is a connect, or
    when it is made on a stored instance; the new store may hold old
    entries and the instance just connected. *)
Lemma lifecycle_call (st : closure) (cls : CustomAttribute) (m : method)
    (obs' : gmap nat CustomAttribute) :
  lifecycle_inv st →
  (is_connected m = false → ∃ i, observedElements st !! i = Some cls) →
  (∀ i c, obs' !! i = Some c →
          observedElements st !! i = Some c
          ∨ (c = cls ∧ is_connected m = true)) →
  lifecycle_inv {| observedElements := obs';
                   calls := calls st ++ [(cls, m)] |}.
Proof.
  intros [Hfirst Hstored] Hcall Hobs. split; simpl.
  - intros j c0 m0 Hlookup Hm0.
    apply lookup_snoc_Some in Hlookup as [[Hlt Hlookup]|[-> [= <- <-]]].
    + destruct (Hfirst j c0 m0 Hlookup Hm0) as (j' & value & Hlt' & Hj').
      exists j', value. split; [done|]. by apply lookup_app_l_Some.
    + destruct (Hcall Hm0) as [i Hi].
      destruct (Hstored i cls Hi) as (j' & value & Hj').
      exists j', value. split; [by eapply lookup_lt_Some|].
      by apply lookup_app_l_Some.
  - intros i c Hlookup.
    destruct (Hobs i c Hlookup) as [Hold|[-> Hm]].
    + destruct (Hstored i c Hold) as (j & value & Hj).
      exists j, value. by apply lookup_app_l_Some.
    + destruct m as [value| |]; try done.
      exists (length (calls st)), value. by apply list_lookup_middle.
Qed.

(** Whatever the batch and the factory, connectedCallback is the first
    hook an instance receives: a changedCallback or disconnectedCallback
    call is never made on an instance that was not connected earlier in
    the log, and every instance in the store was connected.  Both
    handlers and both initial passes keep this. *)
Theorem connected_comes_first (name : string) (customAttribute : jsval)
    (st : closure) :
  lifecycle_inv st →
  (∀ mutationList,
     lifecycle_inv
       (MainJs.mutationHandler name customAttribute mutationList st).2
     ∧ lifecycle_inv
         (Part001.mutationHandler name customAttribute mutationList st).2)
  ∧ (∀ root childList,
       lifecycle_inv
         (MainJs.initial_pass name customAttribute root childList st).2
       ∧ lifecycle_inv
           (Part001.initial_pass name customAttribute root childList st).2).
Proof.
  apply invariant_kept.
  - intros el s Hs. rewrite newAttribute_cases.
    destruct customAttribute; try done. simpl.
    apply lifecycle_call; [done|done|].
    intros i c. rewrite lookup_insert.
    case_decide; [intros [= <-]; by right|by left].
  - intros n s Hs. rewrite disconnect_if_observed_cases.
    destruct (observedElements s !! ident n) as [cls|] eqn:Hobs; [|done].
    apply lifecycle_call; [done|by eexists|by left].
  - intros n s Hs. rewrite disconnect_and_delete_cases.
    destruct (observedElements s !! ident n) as [cls|] eqn:Hobs; [|done].
    apply lifecycle_call; [done|by eexists|].
    intros i c [_ ?]%lookup_delete_Some. by left.
  - intros record s Hs. rewrite attributes_branch_cases.
    destruct (oldValue record).
    + destruct (observedElements s !! ident (target record)) as [cls|] eqn:Hobs;
        [|done].
      destruct (getAttribute (target record) name).
      * case_decide; [done|].
        apply lifecycle_call; [done|by eexists|by left].
      * apply lifecycle_call; [done|by eexists|].
        intros i c [_ ?]%lookup_delete_Some. by left.
    + rewrite newAttribute_cases.
      destruct customAttribute; try done. simpl.
      apply lifecycle_call; [done|done|].
      intros i c. rewrite lookup_insert.
      case_decide; [intros [= <-]; by right|by left].
Qed.

Lemma connected_comes_first_witness :
  lifecycle_inv {| observedElements := ∅; calls := [] |}
  ∧ lifecycle_inv
      (MainJs.initial_pass "x" (JClass 7) sample_document true
         {| observedElements := ∅; calls := [] |}).2.
Proof.
  assert (Hst : lifecycle_inv {| observedElements := ∅; calls := [] |}).
  { split; simpl.
    - intros j cls m Hlookup. by rewrite lookup_nil in Hlookup.
    - intros i cls Hlookup. by rewrite lookup_empty in Hlookup. }
  split; [exact Hst|].
  exact (proj1 (proj2 (connected_comes_first "x" (JClass 7) _ Hst)
                  sample_document true)).
Defined.

(** ** Removed and added subtrees *)

Lemma forEach_app {A} (l1 l2 : list A) (body : A → M unit) (st : closure) :
  forEach (l1 ++ l2) body st = (forEach l1 body ;; forEach l2 body) st.
Proof.
  revert st. induction l1 as [|x l1 IH]; intros st; [done|].
  cbn [forEach app]. unfold bind in *.
  destruct (body x st) as [[[]|e] st1]; [|done].
  apply IH.
Qed.

Lemma targets_main_cons (name : string) (n : node) (nodes : list node) :
  targets_main name (n :: nodes)
  = (if instanceofElement n then reached_main name n else [])
    ++ targets_main name nodes.
Proof.
  unfold targets_main. rewrite filter_cons.
  destruct (instanceofElement n); simpl.
  - by destruct (decide (Is_true true)) as [_|[]].
  - by destruct (decide (Is_true false)) as [[]|_].
Qed.

Lemma targets_part_cons (name : string) (n : node) (nodes : list node) :
  targets_part name (n :: nodes)
  = (if instanceofElement n then reached_part name n else [])
    ++ targets_part name nodes.
Proof.
  unfold targets_part. rewrite filter_cons.
  destruct (instanceofElement n); simpl.
  - by destruct (decide (Is_true true)) as [_|[]].
  - by destruct (decide (Is_true false)) as [[]|_].
Qed.

(** A loop whose body is itself a loop over what it reaches is one loop
    over all that is reached. *)
Lemma forEach_flat {A B} (l : list A) (body : A → M unit)
    (reach : A → list B) (f : B → M unit) :
  (∀ x st, body x st = forEach (reach x) f st) →
  ∀ st, forEach l body st = forEach (flat_map reach l) f st.
Proof.
  intros Hbody. induction l as [|x l IH]; intros st; [done|].
  cbn [forEach flat_map]. rewrite forEach_app. unfold bind.
  rewrite Hbody.
  destruct (forEach (reach x) f st) as [[[]|e] st1]; [apply IH|done].
Qed.

Lemma targets_main_flat (name : string) (nodes : list node) :
  targets_main name nodes
  = flat_map (fun n => if instanceofElement n then reached_main name n
                       else []) nodes.
Proof.
  induction nodes as [|n nodes IH]; [done|].
  by rewrite targets_main_cons, IH.
Qed.

Lemma targets_part_flat (name : string) (nodes : list node) :
  targets_part name nodes
  = flat_map (fun n => if instanceofElement n then reached_part name n
                       else []) nodes.
Proof.
  induction nodes as [|n nodes IH]; [done|].
  by rewrite targets_part_cons, IH.
Qed.

(** The loop of src/main.js over removed nodes is one sweep over the
    elements it reaches. *)
Lemma removal_loop_main (name : string) (nodes : list node) (st : closure) :
  forEach nodes (fun removedNode =>
    if instanceofElement removedNode then
      if hasAttribute removedNode name then
        disconnect_if_observed removedNode
      else
        forEach (querySelectorAll removedNode name) disconnect_if_observed
    else ret tt) st
  = forEach (targets_main name nodes) disconnect_if_observed st.
Proof.
  rewrite targets_main_flat. apply forEach_flat. clear.
  intros n st. unfold reached_main.
  destruct (instanceofElement n); [|done].
  destruct (hasAttribute n name); [|done].
  cbn [forEach]. by rewrite bind_ret_tt.
Qed.

(** The same for the later revisions, which also delete. *)
Lemma removal_loop_part (name : string) (nodes : list node) (st : closure) :
  forEach nodes (fun removedNode =>
    if negb (instanceofElement removedNode) then ret tt
    else
      (let* tracked := observed_has removedNode in
       if hasAttribute removedNode name && tracked then
         let* cls := observed_get removedNode in
         invoke_opt cls disconnectedCallback ;;
         observed_delete removedNode
       else ret tt) ;;
      forEach (querySelectorAll removedNode name)
              disconnect_and_delete_if_observed) st
  = forEach (targets_part name nodes) disconnect_and_delete_if_observed st.
Proof.
  rewrite targets_part_flat. apply forEach_flat. clear.
  intros n st. unfold reached_part.
  destruct (instanceofElement n); [|done].
  destruct (hasAttribute n name); reflexivity.
Qed.

(** The loops over added nodes, likewise. *)
Lemma addition_loop_main (name : string) (customAttribute : jsval)
    (nodes : list node) (st : closure) :
  forEach nodes (fun addedNode =>
    if instanceofElement addedNode then
      if hasAttribute addedNode name then
        newAttribute name customAttribute addedNode
      else
        forEach (querySelectorAll addedNode name)
                (newAttribute name customAttribute)
    else ret tt) st
  = forEach (targets_main name nodes) (newAttribute name customAttribute) st.
Proof.
  rewrite targets_main_flat. apply forEach_flat. clear.
  intros n st. unfold reached_main.
  destruct (instanceofElement n); [|done].
  destruct (hasAttribute n name); [|done].
  cbn [forEach]. by rewrite bind_ret_tt.
Qed.

Lemma addition_loop_part (name : string) (customAttribute : jsval)
    (nodes : list node) (st : closure) :
  forEach nodes (fun addedNode =>
    if negb (instanceofElement addedNode) then ret tt
    else
      (if hasAttribute addedNode name then
         newAttribute name customAttribute addedNode
       else ret tt) ;;
      forEach (querySelectorAll addedNode name)
              (newAttribute name customAttribute)) st
  = forEach (targets_part name nodes) (newAttribute name customAttribute) st.
Proof.
  rewrite targets_part_flat. apply forEach_flat. clear.
  intros n st. unfold reached_part.
  destruct (instanceofElement n); [|done].
  destruct (hasAttribute n name); reflexivity.
Qed.

(** A sweep of src/main.js: the store stays, and each node that has an
    instance gets one call, as often as it is reached. *)
Lemma sweep_main (ts : list node) (st : closure) :
  forEach ts disconnect_if_observed st
  = (Normal tt,
     {| observedElements := observedElements st;
        calls := calls st ++ disconnect_calls (observedElements st) ts |}).
Proof.
  revert st. induction ts as [|n ts IH]; intros st.
  { simpl. unfold ret. by rewrite app_nil_r, closure_eta. }
  cbn [forEach]. unfold bind. rewrite disconnect_if_observed_cases.
  unfold disconnect_calls. cbn [omap list_omap].
  destruct (observedElements st !! ident n) as [cls|]; simpl.
  - rewrite IH. simpl. by rewrite <- app_assoc.
  - by rewrite IH.
Qed.






Lemma addition_closed (name : string) (customAttribute : jsval)
    (record : MutationRecord) (rest : list MutationRecord) (st : closure) :
  removes record = false → adds record = true →
  MainJs.mutationHandler name customAttribute (record :: rest) st
  = forEach (targets_main name (addedNodes record))
      (newAttribute name customAttribute) st
  ∧ Part001.mutationHandler name customAttribute (record :: rest) st
    = forEach (targets_part name (addedNodes record))
        (newAttribute name customAttribute) st.
Proof.
  unfold removes, adds. intros Hremoves Hadds.
  cbn [MainJs.mutationHandler Part001.mutationHandler].
  rewrite Hremoves, Hadds, !bind_ret_tt.
  split; [apply addition_loop_main|apply addition_loop_part].
Qed.

Lemma removal_closed (name : string) (customAttribute : jsval)
    (record : MutationRecord) (rest : list MutationRecord) (st : closure) :
  removes record = true →
  MainJs.mutationHandler name customAttribute (record :: rest) st
  = forEach (targets_main name (removedNodes record))
      disconnect_if_observed st
  ∧ Part001.mutationHandler name customAttribute (record :: rest) st
    = forEach (targets_part name (removedNodes record))
        disconnect_and_delete_if_observed st.
Proof.
  unfold removes. intros Hremoves.
  cbn [MainJs.mutationHandler Part001.mutationHandler].
  rewrite Hremoves, !bind_ret_tt.
  split; [apply removal_loop_main|apply removal_loop_part].
Qed.






(** An element that carries the attribute and has an instance is removed
    in one batch and added again in a later one: the two batches make
    one disconnectedCallback call on the old instance and then one
    connectedCallback call with the value the element has when it is
    added, and the element has a new instance.  For the later revisions
    this is shown for an element without descendants that carry the
    attribute. *)
Theorem removed_then_added_again (name : string) (k : nat)
    (parent parent' el el' : node) (cls : CustomAttribute) (st : closure) :
  instanceofElement el = true → hasAttribute el name = true →
  observedElements st !! ident el = Some cls →
  instanceofElement el' = true → hasAttribute el' name = true →
  (let st1 := (MainJs.mutationHandler name (JClass k)
                 [removal_record parent el] st).2 in
   let st2 := (MainJs.mutationHandler name (JClass k)
                 [addition_record parent' el'] st1).2 in
   new_calls (calls st) (calls st2)
   = [(cls, disconnectedCallback); connect_call k name el']
   ∧ observedElements st2 !! ident el' = Some (instance_for k name el'))
  ∧ (querySelectorAll el name = [] → querySelectorAll el' name = [] →
     let st1 := (Part001.mutationHandler name (JClass k)
                   [removal_record parent el] st).2 in
     let st2 := (Part001.mutationHandler name (JClass k)
                   [addition_record parent' el'] st1).2 in
     new_calls (calls st) (calls st2)
     = [(cls, disconnectedCallback); connect_call k name el']
     ∧ observedElements st2 !! ident el' = Some (instance_for k name el')).
Proof.
  intros Helem Hhas Hobs Helem' Hhas'. split.
  - cbv zeta.
    rewrite (proj1 (removal_closed name (JClass k) (removal_record parent el)
                      [] st eq_refl)).
    rewrite sweep_main.
    rewrite (proj1 (addition_closed name (JClass k)
                      (addition_record parent' el') [] _ eq_refl eq_refl)).
    rewrite forEach_newAttribute.
    cbn [removedNodes addedNodes removal_record addition_record].
    rewrite !targets_main_cons, Helem, Helem'. unfold reached_main.
    rewrite Hhas, Hhas'. cbn [targets_main filter list_filter flat_map app].
    unfold disconnect_calls. cbn [omap list_omap]. rewrite Hobs. simpl.
    split; [|apply lookup_insert_eq].
    rewrite <- app_assoc. by rewrite new_calls_app.
  - intros Hnone Hnone'. cbv zeta.
    rewrite (proj2 (removal_closed name (JClass k) (removal_record parent el)
                      [] st eq_refl)).
    cbn [removedNodes removal_record].
    rewrite targets_part_cons, Helem. unfold reached_part.
    rewrite Hhas, Hnone. cbn [targets_part filter list_filter flat_map app].
    cbn [forEach]. rewrite bind_ret_tt, disconnect_and_delete_cases, Hobs.
    rewrite (proj2 (addition_closed name (JClass k)
                      (addition_record parent' el') [] _ eq_refl eq_refl)).
    rewrite forEach_newAttribute.
    cbn [addedNodes addition_record].
    rewrite targets_part_cons, Helem'. unfold reached_part.
    rewrite Hhas', Hnone'. cbn [targets_part filter list_filter flat_map app].
    simpl. split; [|apply lookup_insert_eq].
    rewrite <- app_assoc. by rewrite new_calls_app.
Qed.

Lemma removed_then_added_again_witness :
  instanceofElement sample_el = true
  ∧ hasAttribute sample_el "x" = true
  ∧ observedElements sample_closure !! ident sample_el
    = Some (instance_for 7 "x" sample_el)
  ∧ let st1 := (MainJs.mutationHandler "x" (JClass 7)
                  [removal_record sample_document sample_el]
                  sample_closure).2 in
    let st2 := (MainJs.mutationHandler "x" (JClass 7)
                  [addition_record sample_document
                     (setAttribute sample_el "x" "changed")] st1).2 in
    new_calls (calls sample_closure) (calls st2)
    = [(instance_for 7 "x" sample_el, disconnectedCallback);
       connect_call 7 "x" (setAttribute sample_el "x" "changed")]
    ∧ observedElements st2 !! ident (setAttribute sample_el "x" "changed")
      = Some (instance_for 7 "x" (setAttribute sample_el "x" "changed")).
Proof.
  split; [reflexivity|]. split; [reflexivity|]. split; [reflexivity|].
  exact (proj1 (removed_then_added_again "x" 7 sample_document
                  sample_document sample_el
                  (setAttribute sample_el "x" "changed")
                  (instance_for 7 "x" sample_el) sample_closure
                  eq_refl eq_refl eq_refl eq_refl eq_refl)).
Defined.

(** * Further properties of registration *)

(** While [registries] is empty a call constructs one observer and
    starts it on its root with its own name as filter, before the initial
    pass and whatever that pass does; it files one registration and
    prints nothing. *)
Lemma registerAttribute_observer (name : string) (customAttribute : jsval)
    (root : node) (childList : bool) (w : world) :
  registries w = ∅ →
  let new_observer :=
    observer_of_call (length (registrations w))
      (name, customAttribute, root, childList) in
  (let w' := (MainJs.registerAttribute name customAttribute root childList
                w).2 in
   observers w' = observers w ++ [new_observer]
   ∧ length (registrations w') = S (length (registrations w))
   ∧ registries w' = ∅ ∧ console w' = console w)
  ∧ (let w' := (Part001.registerAttribute name customAttribute root childList
                  w).2 in
     observers w' = observers w ++ [new_observer]
     ∧ length (registrations w') = S (length (registrations w))
     ∧ registries w' = ∅ ∧ console w' = console w).
Proof.
  intros Hempty. cbv zeta.
  unfold MainJs.registerAttribute, Part001.registerAttribute,
    acquire_observer.
  rewrite Hempty, lookup_empty. simpl. unfold run_initial_pass.
  destruct (MainJs.initial_pass _ _ _ _ _) as [r1 st1].
  destruct (Part001.initial_pass _ _ _ _ _) as [r2 st2]. simpl.
  rewrite lookup_app_r, Nat.sub_diag by done. simpl.
  rewrite insert_app_r_alt, Nat.sub_diag by done. simpl.
  rewrite !length_app. simpl.
  split; (split_and!; [done|lia|done|done]).
Qed.

Lemma register_all_observers (args : list (string * jsval * node * bool)) :
  ∀ w, registries w = ∅ →
    observers (register_all args w)
    = observers w
      ++ imap (fun i => observer_of_call (length (registrations w) + i)) args
    ∧ length (registrations (register_all args w))
      = length (registrations w) + length args.
Proof.
  induction args as [|[[[name customAttribute] root] childList] args IH];
    intros w Hempty.
  { simpl. by rewrite app_nil_r, Nat.add_0_r. }
  cbn [register_all].
  destruct (proj1 (registerAttribute_observer name customAttribute root
                     childList w Hempty))
    as (Hobs & Hlen & Hreg & _).
  destruct (IH _ Hreg) as [IHobs IHlen].
  rewrite IHobs, IHlen, Hobs, Hlen, imap_cons, Nat.add_0_r.
  rewrite <- app_assoc. simpl. split; [|lia].
  do 2 f_equal. apply imap_ext. intros i arg _. simpl.
  f_equal. lia.
Qed.

(** However many registrations are made after the module was loaded,
    with whatever names, factories, roots and flags (the same name on the
    same root included), the [i]-th call constructs observer [i] for its
    own handler and starts it on its own root with the one-name filter;
    no observer is shared, stopped or restarted, and nothing is
    printed. *)
Theorem one_observer_per_call (args : list (string * jsval * node * bool)) :
  observers (register_all args initial_world) = imap observer_of_call args
  ∧ length (registrations (register_all args initial_world)) = length args
  ∧ console (register_all args initial_world) = [].
Proof.
  destruct (register_all_observers args initial_world eq_refl) as [Hobs Hlen].
  destruct (register_all_no_diagnostic args initial_world eq_refl)
    as [_ Hcon].
  split_and!; [|done|done].
  rewrite Hobs. simpl. apply imap_ext. by intros i arg _.
Qed.

(** In the revision without parameter checks a registration on a root
    that is no element, with [childList] false, throws its error after
    the observer was constructed and started: the observer stays on the
    root, no hook was called.  The revision with parameter checks never
    gets there: whatever the other arguments are, the same root is thrown
    out by a check before any observer exists and the world is as it
    was. *)
Theorem failed_registration_keeps_observing (name : string)
    (customAttribute : jsval) (root : node) (w : world) :
  registries w = ∅ →
  instanceofElement root = false →
  let r := Part001.registerAttribute name customAttribute root false w in
  (r.1 = Thrown (Error "Root must be a valid element node.")
   ∧ observers r.2
     = observers w
       ++ [ {| callback := length (registrations w);
               observing := Some (ident root,
                                  observe_options [name] false) |} ]
   ∧ hook_calls r.2 = hook_calls w)
  ∧ ∀ document nameValue factory childList,
      ∃ msg, Part001.Checked.registerAttribute document nameValue factory
               (JNode root) childList w
             = (Thrown (Error msg), w).
Proof.
  intros Hempty Helem. cbv zeta.
  destruct (proj2 (registerAttribute_observer name customAttribute root
                     false w Hempty)) as (Hobs & _).
  split; [split_and!; [| exact Hobs |]|].
  - unfold Part001.registerAttribute, acquire_observer.
    rewrite Hempty, lookup_empty. simpl.
    unfold run_initial_pass, Part001.initial_pass. by rewrite Helem.
  - unfold Part001.registerAttribute, acquire_observer.
    rewrite Hempty, lookup_empty. simpl.
    unfold run_initial_pass, Part001.initial_pass. by rewrite Helem.
  - intros document nameValue factory childList.
    assert (Hhtml : instanceofHTMLElement root = false).
    { revert Helem. unfold instanceofHTMLElement, instanceofElement.
      by destruct (kind root). }
    unfold Part001.Checked.registerAttribute.
    destruct (String.eqb (typeof nameValue) "string"); simpl; [|by eexists].
    destruct (instanceofCustomAttribute factory); simpl; [|by eexists].
    rewrite Hhtml. simpl. by eexists.
Qed.

Lemma failed_registration_keeps_observing_witness :
  registries initial_world = ∅
  ∧ instanceofElement sample_document = false
  ∧ let r := Part001.registerAttribute "x" (JClass 7) sample_document false
               initial_world in
    (r.1 = Thrown (Error "Root must be a valid element node.")
     ∧ observers r.2
       = observers initial_world
         ++ [ {| callback := length (registrations initial_world);
                 observing := Some (ident sample_document,
                                    observe_options ["x"] false) |} ]
     ∧ hook_calls r.2 = hook_calls initial_world)
    ∧ ∀ document nameValue factory childList,
        ∃ msg, Part001.Checked.registerAttribute document nameValue factory
                 (JNode sample_document) childList initial_world
               = (Thrown (Error msg), initial_world).
Proof.
  split; [reflexivity|]. split; [reflexivity|].
  exact (failed_registration_keeps_observing "x" (JClass 7) sample_document
           initial_world eq_refl eq_refl).
Defined.

(** ** The checking revision *)

Lemma initial_pass_of_instance (name : string) (k : nat) (root : node)
    (childList : bool) (st : closure) :
  calls (Part001.initial_pass name (JInstance k) root childList st).2
  = calls st.
Proof.
  unfold Part001.initial_pass, call_querySelectorAll.
  destruct childList.
  - destruct (has_querySelectorAll root); [|done].
    unfold bind at 1. unfold ret at 1.
    by destruct (querySelectorAll root name).
  - by destruct (instanceofElement root).
Qed.

(** The revision that checks its parameters calls no hook for any
    factory among the values told apart here (a primitive, a node, a
    class, an object made by [new] of a class, another object), whatever
    the other arguments and the world: either a check throws, or the
    factory is an instance of CustomAttribute, which [new] cannot
    construct from. *)
Theorem checking_revision_calls_no_hook (document : node)
    (name customAttribute root childList : jsval) (w : world) :
  hook_calls (Part001.Checked.registerAttribute document name
                customAttribute root childList w).2
  = hook_calls w.
Proof.
  unfold Part001.Checked.registerAttribute.
  destruct (String.eqb (typeof name) "string"); simpl; [|done].
  destruct customAttribute as [| | | | | | |k|]; simpl; try done.
  destruct (Part001.Checked.is_HTMLElement _); simpl; [|done].
  destruct (String.eqb (typeof _) "boolean"); simpl; [|done].
  destruct name; try done.
  destruct (match root with JUndefined => JNode document | _ => root end)
    as [| | | | |rootNode| | |]; try done.
  destruct (match childList with JUndefined => JBool true | _ => childList end)
    as [| |b| | | | | |]; try done.
  unfold Part001.registerAttribute, acquire_observer.
  destruct (registries w !! ident rootNode) as [entry|].
  - case_bool_decide; [done|].
    unfold run_initial_pass.
    pose proof (initial_pass_of_instance s k rootNode b) as Hpass.
    match goal with
    | |- context [Part001.initial_pass ?n ?c ?r ?b ?st] =>
        specialize (Hpass st);
        destruct (Part001.initial_pass n c r b st) as [res st']
    end.
    exact Hpass.
  - simpl. unfold run_initial_pass.
    pose proof (initial_pass_of_instance s k rootNode b) as Hpass.
    match goal with
    | |- context [Part001.initial_pass ?n ?c ?r ?b ?st] =>
        specialize (Hpass st);
        destruct (Part001.initial_pass n c r b st) as [res st']
    end.
    exact Hpass.
Qed.

Lemma checks_throw_first_witness :
  typeof (JNum 5) ≠ "string"
  ∧ ∃ msg,
      Part001.Checked.registerAttribute sample_document (JNum 5)
        (JInstance 7) (JNode sample_body) (JBool true) initial_world
      = (Thrown (Error msg), initial_world).
Proof.
  assert (Hname : typeof (JNum 5) ≠ "string") by done.
  split; [exact Hname|].
  exact (checks_throw_first sample_document (JNum 5) (JInstance 7)
           (JNode sample_body) (JBool true) initial_world
           (or_introl Hname)).
Defined.

(** The checking revision rejects the call its own documentation shows:
    a class as factory is thrown out by the second check (or the name by
    the first), and a call that leaves out the root is thrown out because
    the default, the document, is no HTMLElement.  Nothing is observed
    and nothing is called. *)
Theorem documented_call_is_rejected (document : node)
    (name childList : jsval) (w : world) :
  (∀ k root,
     ∃ msg, Part001.Checked.registerAttribute document name (JClass k)
              root childList w = (Thrown (Error msg), w))
  ∧ (instanceofHTMLElement document = false →
     ∀ customAttribute,
       ∃ msg, Part001.Checked.registerAttribute document name customAttribute
                JUndefined childList w = (Thrown (Error msg), w)).
Proof.
  split.
  - intros k root. unfold Part001.Checked.registerAttribute.
    destruct (String.eqb (typeof name) "string"); simpl; by eexists.
  - intros Hdoc customAttribute. unfold Part001.Checked.registerAttribute.
    destruct (String.eqb (typeof name) "string"); simpl; [|by eexists].
    destruct (instanceofCustomAttribute customAttribute); simpl;
      [|by eexists].
    rewrite Hdoc. simpl. by eexists.
Qed.

Lemma documented_call_is_rejected_witness :
  instanceofHTMLElement sample_document = false
  ∧ ∃ msg, Part001.Checked.registerAttribute sample_document (JStr "x")
             (JInstance 7) JUndefined JUndefined initial_world
           = (Thrown (Error msg), initial_world).
Proof.
  split; [reflexivity|].
  exact (proj2 (documented_call_is_rejected sample_document (JStr "x")
                  JUndefined initial_world) eq_refl (JInstance 7)).
Defined.

(** ** The value getter *)

(** Inside a hook called for an attribute record, the [value] getter of
    the instance reads what the hook was handed: the value passed to
    connectedCallback, the new value passed to changedCallback, and null
    when disconnectedCallback is called.  The instance is the one of the
    record's target. *)
Theorem value_getter_agrees (name : string) (k : nat)
    (record : MutationRecord) (st : closure) :
  type record = attributes_t →
  instanceofElement (target record) = true →
  store_coherent name st →
  ∀ cls m,
    (cls, m) ∈ new_calls (calls st)
      (calls (MainJs.mutationHandler name (JClass k) [record] st).2) →
    host cls = ident (target record)
    ∧ match m with
      | connectedCallback value =>
          instance_value cls (target record) = value
      | changedCallback newValue _ =>
          instance_value cls (target record) = newValue
      | disconnectedCallback =>
          instance_value cls (target record) = None
      end.
Proof.
  intros Htype Helem Hst cls m.
  rewrite mutationHandler_singleton by done.
  rewrite attributes_branch_cases. unfold instance_value.
  assert (∀ c, c ∈ new_calls (calls st) (calls st) → False) as Hnil.
  { unfold new_calls. rewrite drop_all. by intros c ?%elem_of_nil. }
  destruct (oldValue record) as [old|].
  - destruct (observedElements st !! ident (target record)) as [cls'|] eqn:Hobs;
      [|by intros ?%Hnil].
    destruct (Hst _ _ Hobs) as [Hhost Hname].
    destruct (getAttribute (target record) name) as [new|] eqn:Hnew.
    + case_decide; [by intros ?%Hnil|].
      simpl. rewrite new_calls_app.
      intros [= -> ->]%list_elem_of_singleton. by rewrite Hname.
    + simpl. rewrite new_calls_app.
      intros [= -> ->]%list_elem_of_singleton. by rewrite Hname.
  - rewrite newAttribute_class. simpl. rewrite new_calls_app.
    unfold connect_call. intros [= -> ->]%list_elem_of_singleton. done.
Qed.

Lemma value_getter_agrees_witness :
  let record := attribute_record "x" (removeAttribute sample_el "x")
                  (Some "1") in
  type record = attributes_t
  ∧ instanceofElement (target record) = true
  ∧ store_coherent "x" sample_closure
  ∧ instance_value (instance_for 7 "x" sample_el) (target record) = None.
Proof.
  intros record.
  assert (Hst : store_coherent "x" sample_closure).
  { intros i cls Hlookup. simpl in Hlookup.
    apply lookup_singleton_Some in Hlookup as [<- <-]. done. }
  assert (Hin : (instance_for 7 "x" sample_el, disconnectedCallback)
    ∈ new_calls (calls sample_closure)
        (calls (MainJs.mutationHandler "x" (JClass 7) [record]
                  sample_closure).2)).
  { vm_compute. left. }
  split; [reflexivity|]. split; [reflexivity|]. split; [exact Hst|].
  exact (proj2 (value_getter_agrees "x" 7 record sample_closure
                  eq_refl eq_refl Hst _ _ Hin)).
Defined.

(** ** A factory that is no constructor *)

Lemma nothing_connected_preorder : PreOrder nothing_connected.
Proof.
  split.
  - intros st. split; [done|]. exists []. by rewrite app_nil_r.
  - intros x y z [Hobs1 (a1 & Hc1 & Hf1)] [Hobs2 (a2 & Hc2 & Hf2)]. split.
    + intros i cls Hz. by apply Hobs1, Hobs2.
    + exists (a1 ++ a2). split; [by rewrite Hc2, Hc1, app_assoc|].
      by apply Forall_app.
Qed.

Lemma nothing_connected_call (st : closure) (cls : CustomAttribute)
    (m : method) (obs' : gmap nat CustomAttribute) :
  is_connected m = false →
  (∀ i c, obs' !! i = Some c → observedElements st !! i = Some c) →
  nothing_connected st
    {| observedElements := obs'; calls := calls st ++ [(cls, m)] |}.
Proof.
  intros Hm Hobs. split; [done|]. exists [(cls, m)]. split; [done|].
  by constructor.
Qed.

(** When the factory is not a class, as when an instance is passed for
    it, [new] fails: whatever the batch, neither handler ever calls
    connectedCallback or puts an instance into the store, and an
    attribute record without old value on an element makes the handler
    throw a TypeError with the state untouched, the records behind it
    unhandled. *)
Theorem no_constructor_no_connect (name : string) (customAttribute : jsval)
    (st : closure) :
  (∀ k, customAttribute ≠ JClass k) →
  (∀ mutationList,
     nothing_connected st
       (MainJs.mutationHandler name customAttribute mutationList st).2
     ∧ nothing_connected st
         (Part001.mutationHandler name customAttribute mutationList st).2)
  ∧ (∀ record rest,
       type record = attributes_t →
       instanceofElement (target record) = true →
       oldValue record = None →
       MainJs.mutationHandler name customAttribute (record :: rest) st
       = (Thrown TypeError, st)
       ∧ Part001.mutationHandler name customAttribute (record :: rest) st
         = (Thrown TypeError, st)).
Proof.
  intros Hclass.
  assert (∀ el s, newAttribute name customAttribute el s
                  = (Thrown TypeError, s)) as Hnew.
  { intros el s. rewrite newAttribute_cases.
    destruct customAttribute; try done. by destruct (Hclass k). }
  pose proof nothing_connected_preorder as HR.
  split.
  - intros mutationList.
    destruct (steps_mutationHandler nothing_connected name customAttribute)
      with (mutationList := mutationList) as [Hm Hp]; [..|by split].
    + intros el s. rewrite Hnew. simpl. reflexivity.
    + intros n s. rewrite disconnect_if_observed_cases.
      destruct (observedElements s !! ident n); [|simpl; reflexivity].
      by apply nothing_connected_call.
    + intros n s. rewrite disconnect_and_delete_cases.
      destruct (observedElements s !! ident n); [|simpl; reflexivity].
      apply nothing_connected_call; [done|].
      by intros ? ? [_ ?]%lookup_delete_Some.
    + intros record s. rewrite attributes_branch_cases.
      destruct (oldValue record).
      * destruct (observedElements s !! ident (target record));
          [|simpl; reflexivity].
        destruct (getAttribute (target record) name).
        -- case_decide; [simpl; reflexivity|].
           by apply nothing_connected_call.
        -- apply nothing_connected_call; [done|].
           by intros ? ? [_ ?]%lookup_delete_Some.
      * rewrite Hnew. simpl. reflexivity.
  - intros record rest Htype Helem Hold.
    cbn [MainJs.mutationHandler Part001.mutationHandler].
    rewrite Htype, Helem.
    rewrite bool_decide_eq_false_2 by done.
    rewrite bool_decide_eq_true_2 by done. simpl.
    unfold bind. rewrite attributes_branch_cases, Hold, Hnew. done.
Qed.

Lemma no_constructor_no_connect_witness :
  (∀ k, JInstance 7 ≠ JClass k)
  ∧ MainJs.mutationHandler "x" (JInstance 7)
      [attribute_record "x" sample_el None;
       attribute_record "x" sample_el (Some "0")] sample_closure
    = (Thrown TypeError, sample_closure).
Proof.
  assert (Hclass : ∀ k, JInstance 7 ≠ JClass k) by done.
  split; [exact Hclass|].
  exact (proj1 (proj2 (no_constructor_no_connect "x" (JInstance 7)
                         sample_closure Hclass)
                  (attribute_record "x" sample_el None)
                  [attribute_record "x" sample_el (Some "0")]
                  eq_refl eq_refl eq_refl)).
Defined.
